(** * Manchester encoder on the ATtiny817 (main.c)

    A shallow embedding of the transmit buffer hand-off
    ([send_encoded_data]), of the half-bit timer interrupt
    ([ISR(TCB0_INT_vect)]) and of the guard delay of [main], together with
    the properties of the design document that can be stated over them.

    Conventions of the embedding:
    - every [uint8_t] variable is a [Z] kept in [0, 256) by [uint8];
    - bit 4 of the PORTA output latch and the ENABLE bit of TCB0.CTRLA are
      the two peripheral bits the program touches, one [bool] each; the
      other bits of those registers are never changed by main.c;
    - the build-time choice between [ENCODING_G_E_THOMAS] and
      [ENCODING_IEEE] is a value of type [encoding] passed to the functions
      that contain an [#ifdef];
    - the write to TCB0.INTFLAGS that ends the interrupt handler is the
      hardware acknowledge of the tick and is not part of the state;
    - the floating-point expression of [TCB0_init] is evaluated with the
      operations of the Standard Library's [SpecFloat]. *)

From Stdlib Require Import ZArith List Bool Lia.
From Stdlib Require Import SpecFloat.
Import ListNotations.
Open Scope Z_scope.

(** ** Machine integers *)

Definition uint8 (z : Z) : Z := z mod 256.

(** ** Build-time configuration *)

Inductive encoding : Type :=
| ENCODING_G_E_THOMAS
| ENCODING_IEEE.

Definition BAUD_RATE : Z := 50000.
Definition START_BYTE : Z := 85. (* 0x55 *)
Definition TRANSMIT_BUFFER_SIZE : Z := 255.
Definition TRANSMIT_EXAMPLE_SIZE : Z := 18.

(** "Hello Manchester!" and its terminating NUL: 18 bytes. *)
Definition transmit_example : list Z :=
  [72; 101; 108; 108; 111; 32; 77; 97; 110; 99; 104; 101; 115; 116; 101;
   114; 33; 0].

(** ** Program state *)

Record state : Type := mkState {
  (* globals *)
  transmit_buffer : list Z;
  transmit_buffer_length : Z;
  sending_in_progress : Z;
  (* statics of the interrupt handler *)
  prev : Z;
  clk : Z;
  transmit_buffer_index : Z;
  bit_index : Z;
  (* peripherals *)
  PA4 : bool;
  TCB_ENABLE : bool
}.

Definition set_transmit_buffer v s :=
  mkState v (transmit_buffer_length s) (sending_in_progress s) (prev s)
          (clk s) (transmit_buffer_index s) (bit_index s) (PA4 s)
          (TCB_ENABLE s).
Definition set_transmit_buffer_length v s :=
  mkState (transmit_buffer s) v (sending_in_progress s) (prev s) (clk s)
          (transmit_buffer_index s) (bit_index s) (PA4 s) (TCB_ENABLE s).
Definition set_sending_in_progress v s :=
  mkState (transmit_buffer s) (transmit_buffer_length s) v (prev s) (clk s)
          (transmit_buffer_index s) (bit_index s) (PA4 s) (TCB_ENABLE s).
Definition set_prev v s :=
  mkState (transmit_buffer s) (transmit_buffer_length s)
          (sending_in_progress s) v (clk s) (transmit_buffer_index s)
          (bit_index s) (PA4 s) (TCB_ENABLE s).
Definition set_clk v s :=
  mkState (transmit_buffer s) (transmit_buffer_length s)
          (sending_in_progress s) (prev s) v (transmit_buffer_index s)
          (bit_index s) (PA4 s) (TCB_ENABLE s).
Definition set_transmit_buffer_index v s :=
  mkState (transmit_buffer s) (transmit_buffer_length s)
          (sending_in_progress s) (prev s) (clk s) v (bit_index s) (PA4 s)
          (TCB_ENABLE s).
Definition set_bit_index v s :=
  mkState (transmit_buffer s) (transmit_buffer_length s)
          (sending_in_progress s) (prev s) (clk s)
          (transmit_buffer_index s) v (PA4 s) (TCB_ENABLE s).
Definition set_PA4 v s :=
  mkState (transmit_buffer s) (transmit_buffer_length s)
          (sending_in_progress s) (prev s) (clk s)
          (transmit_buffer_index s) (bit_index s) v (TCB_ENABLE s).
Definition set_TCB_ENABLE v s :=
  mkState (transmit_buffer s) (transmit_buffer_length s)
          (sending_in_progress s) (prev s) (clk s)
          (transmit_buffer_index s) (bit_index s) (PA4 s) v.

(** ** Memory and port accesses *)

(** Reading element [i] of an array.  A read past the end is undefined in C;
    the model returns 0 there, and the theorems below that depend on a read
    carry the bound that keeps it inside the array. *)
Definition load (a : list Z) (i : nat) : Z := nth i a 0.

(** Writing element [i] of an array; nothing is written past the end. *)
Fixpoint store (a : list Z) (i : nat) (v : Z) : list Z :=
  match a, i with
  | [], _ => []
  | _ :: t, O => v :: t
  | h :: t, S j => h :: store t j v
  end.

(** The three strobe registers of PORTA, restricted to PIN4_bm. *)
Inductive port_write : Type :=
| OUTSET
| OUTCLR
| OUTTGL.

Definition port_apply (pin : bool) (w : port_write) : bool :=
  match w with
  | OUTSET => true
  | OUTCLR => false
  | OUTTGL => negb pin
  end.

Definition PORTA_write (w : port_write) (s : state) : state :=
  set_PA4 (port_apply (PA4 s) w) s.

(** The [#ifdef]s of the program. *)

(** Initial value of the static [prev] (lines 117-121). *)
Definition prev_init (enc : encoding) : Z :=
  match enc with
  | ENCODING_G_E_THOMAS => 0
  | ENCODING_IEEE => 1
  end.

(** Port write of the "prepare for next packet" branch (lines 152-156). *)
Definition rest_write (enc : encoding) : port_write :=
  match enc with
  | ENCODING_G_E_THOMAS => OUTCLR
  | ENCODING_IEEE => OUTSET
  end.

(** Level of the line after [rest_write]. *)
Definition rest_level (enc : encoding) : bool :=
  match enc with
  | ENCODING_G_E_THOMAS => false
  | ENCODING_IEEE => true
  end.

(** ** TCB0_init

    The second statement, [TCB0.CTRLA |= TCB_ENABLE_bm], acts on the state.
    The first one writes the compare register, which no other statement of
    main.c reads: the state has no field for it, and the value written is
    [TCB0_CCMP] below. *)
Definition TCB0_init (s : state) : state := set_TCB_ENABLE true s.

(** Line 61, [(uint16_t)(((float)F_CPU) / (2 * BAUD_RATE) + 0.5)].

    [float] is IEEE single precision, 24 bits of mantissa.  [F_CPU] is a
    macro of the build configuration and a parameter here.  The product
    [2 * BAUD_RATE] is an [unsigned long] of 32 bits and is converted to
    [float] for the division.  The constant 0.5 is a [double], so the sum
    is made in the format of [double], which the compiler chooses (single
    precision by default with avr-gcc, 53 bits of mantissa elsewhere) and
    which is the pair [dprec], [demax] here. *)





(** ** send_encoded_data *)

(** The loop [for (i = 0; i < num_bytes; i++) transmit_buffer[i] =
    transmit_data[i];] entered at index [i] with [n] iterations left. *)
Fixpoint copy_loop (n : nat) (i : nat) (transmit_data buf : list Z)
  : list Z :=
  match n with
  | O => buf
  | S k => copy_loop k (S i) transmit_data (store buf i (load transmit_data i))
  end.

Definition send_encoded_data (s : state) (transmit_data : list Z)
           (num_bytes : Z) : Z * state :=
  if sending_in_progress s =? 0 then
    let s := set_transmit_buffer
               (copy_loop (Z.to_nat num_bytes) 0 transmit_data
                          (transmit_buffer s)) s in
    let s := set_transmit_buffer_length (uint8 (num_bytes + 1)) s in
    let s := set_sending_in_progress 1 s in
    (1, s)
  else
    (0, s).

(** ** ISR(TCB0_INT_vect) *)

(** [(transmit_buffer[transmit_buffer_index] & (1 << bit_index)) > 0] *)
Definition next_bit_of (s : state) : Z :=
  if 0 <? Z.land (load (transmit_buffer s)
                       (Z.to_nat (transmit_buffer_index s)))
                 (Z.shiftl 1 (bit_index s))
  then 1 else 0.

Definition ISR (enc : encoding) (s : state) : state :=
  if negb (clk s =? 0) then
    (* Always toggle pin on clock edge *)
    let s := set_clk 0 s in
    PORTA_write OUTTGL s
  else
    let next_bit := next_bit_of s in
    let s := if next_bit =? prev s then PORTA_write OUTTGL s else s in
    (* if (!bit_index--) *)
    let old_bit_index := bit_index s in
    let s := set_bit_index (uint8 (old_bit_index - 1)) s in
    let s :=
      if old_bit_index =? 0 then
        let s := set_bit_index 7 s in
        (* if (++transmit_buffer_index >= transmit_buffer_length) *)
        let s := set_transmit_buffer_index
                   (uint8 (transmit_buffer_index s + 1)) s in
        if transmit_buffer_length s <=? transmit_buffer_index s then
          let s := PORTA_write (rest_write enc) s in
          let s := set_transmit_buffer_index 0 s in
          let s := set_bit_index 6 s in
          let s := set_TCB_ENABLE false s in
          set_sending_in_progress 0 s
        else s
      else s in
    let s := set_clk 1 s in
    set_prev next_bit s.

(** The condition under which a data-edge step runs the "prepare for next
    packet" branch. *)
Definition last_bit_consumed (s : state) : bool :=
  (bit_index s =? 0)
  && (transmit_buffer_length s <=? uint8 (transmit_buffer_index s + 1)).

(** The writes to the PORTA strobe registers made by one run of the handler,
    in program order (lines 138, 143 and 153/155). *)
Definition ISR_port_writes (enc : encoding) (s : state) : list port_write :=
  if negb (clk s =? 0) then [OUTTGL]
  else
    (if next_bit_of s =? prev s then [OUTTGL] else [])
    ++ (if last_bit_consumed s then [rest_write enc] else []).

(** ** main *)

(** Modelled from the spec: the level of the pin left by
    [atmel_start_init], which is not part of main.c.  The design document
    has the line at the rest level of the convention before the first
    submission, low for G.E. Thomas; the IEEE build sets it high itself
    (line 95). *)
Definition pin_after_atmel_start_init : bool := false.

(** State at the entry of the main loop.  The globals and the statics have
    their initialisers; [TCB0_init] has enabled the timer; the IEEE build
    has set the pin. *)
Definition initial_state (enc : encoding) : state :=
  let s := mkState (START_BYTE :: repeat 0 254) 0 0 (prev_init enc) 1 0 6
                   pin_after_atmel_start_init false in
  let s := TCB0_init s in
  match enc with
  | ENCODING_IEEE => PORTA_write OUTSET s
  | ENCODING_G_E_THOMAS => s
  end.

(** The main loop sees the program state and the time it has spent in
    [_delay_us]. *)
Record main_state : Type := mkMain {
  mcu : state;
  delay_calls : Z;     (* number of calls of _delay_us(250) *)
  delayed_us : Z       (* their total, in microseconds *)
}.

Definition _delay_us (us : Z) (m : main_state) : main_state :=
  mkMain (mcu m) (delay_calls m + 1) (delayed_us m + us).

(** [for (uint8_t i = 2048000 / baud; i > 0; i--) _delay_us(250);] with
    [i] iterations left.  Beside the state, the loop yields what an
    onlooker of the timer sees while it runs: the ENABLE bit at the moment
    of each call of [_delay_us], in the order of the calls. *)
Fixpoint guard_loop (i : nat) (m : main_state) : main_state * list bool :=
  match i with
  | O => (m, [])
  | S k =>
      let seen := TCB_ENABLE (mcu m) in
      let (m', later) := guard_loop k (_delay_us 250 m) in
      (m', seen :: later)
  end.

(** Initial value of the loop counter: the quotient of the two integer
    constants, converted to [uint8_t]. *)
Definition guard_count (baud : Z) : Z := uint8 (2048000 / baud).

(** Lines 104-110: the [if] that follows an accepted submission.  The
    result is the state it leaves and the record of the ENABLE bit kept by
    the delay loop. *)
Definition guard_and_enable (baud : Z) (m : main_state)
  : main_state * list bool :=
  if negb (sending_in_progress (mcu m) =? 0) && negb (TCB_ENABLE (mcu m))
  then
    let (m, seen) := guard_loop (Z.to_nat (guard_count baud)) m in
    (mkMain (set_TCB_ENABLE true (mcu m)) (delay_calls m) (delayed_us m),
     seen)
  else (m, []).

(** One pass of the main loop once [send_encoded_data] has accepted the
    packet; [None] when the call is refused and the inner [while] keeps
    spinning. *)
Definition main_pass (baud : Z) (m : main_state) (transmit_data : list Z)
           (num_bytes : Z) : option main_state :=
  match send_encoded_data (mcu m) transmit_data num_bytes with
  | (0, _) => None
  | (_, s) => Some (fst (guard_and_enable baud
                           (mkMain s (delay_calls m) (delayed_us m))))
  end.

(** ** The line seen by a receiver *)

(** Levels of the pin after each tick, from state [s] until the handler
    disables the timer (or [fuel] ticks have passed). *)
Fixpoint waveform (fuel : nat) (enc : encoding) (s : state) : list bool :=
  match fuel with
  | O => []
  | S f =>
      if TCB_ENABLE s then
        let s' := ISR enc s in
        PA4 s' :: waveform f enc s'
      else []
  end.

(** State after the same ticks. *)
Fixpoint run (fuel : nat) (enc : encoding) (s : state) : state :=
  match fuel with
  | O => s
  | S f => if TCB_ENABLE s then run f enc (ISR enc s) else s
  end.

(** A packet on the line: the level at the moment the timer is enabled,
    then the level after each tick. *)
Definition line_levels (fuel : nat) (enc : encoding) (s : state)
  : list bool :=
  PA4 s :: waveform fuel enc s.

(** The levels of a whole transmission started from [s]: the call of
    [send_encoded_data], the enabling of the timer by the main loop, the
    ticks. *)
Definition packet_levels (fuel : nat) (enc : encoding) (s : state)
           (transmit_data : list Z) (num_bytes : Z) : list bool :=
  let s := snd (send_encoded_data s transmit_data num_bytes) in
  line_levels fuel enc (set_TCB_ENABLE true s).

(** Two consecutive half-bit levels make one bit period; a last level
    without a second half is no bit period. *)
Fixpoint bit_periods (levels : list bool) : list (bool * bool) :=
  match levels with
  | a :: b :: rest => (a, b) :: bit_periods rest
  | _ => []
  end.

(** The transition rules of the design document, read backwards.
    G.E. Thomas: 1 is high-to-low at the bit centre, 0 is low-to-high.
    IEEE: 1 is low-to-high, 0 is high-to-low.  A bit period without a
    transition at its centre decodes to nothing. *)
Definition decode_period (enc : encoding) (p : bool * bool) : option Z :=
  match enc, p with
  | ENCODING_G_E_THOMAS, (true, false) => Some 1
  | ENCODING_G_E_THOMAS, (false, true) => Some 0
  | ENCODING_IEEE, (false, true) => Some 1
  | ENCODING_IEEE, (true, false) => Some 0
  | _, _ => None
  end.

Definition decode_levels (enc : encoding) (levels : list bool)
  : list (option Z) :=
  map (decode_period enc) (bit_periods levels).

(** Bit [k] of a byte, as 0 or 1, and the eight bits of a byte, most
    significant first. *)
Definition bit_of (b : Z) (k : Z) : Z := if Z.testbit b k then 1 else 0.

Definition byte_bits (b : Z) : list Z :=
  map (bit_of b) [7; 6; 5; 4; 3; 2; 1; 0].

Definition bytes_bits (l : list Z) : list Z := flat_map byte_bits l.

(** The bytes the handler walks through: the first
    [transmit_buffer_length] bytes of the buffer. *)
Definition queued_bytes (s : state) : list Z :=
  firstn (Z.to_nat (transmit_buffer_length s)) (transmit_buffer s).

(** ** Statements of the design document, as written there *)

(** Guard interval of the design document: the least number of delay
    increments [k] with [k * baud >= 2048000]. *)
Definition guardTicks (baud : Z) : Z := (2048000 + baud - 1) / baud.






(** A refused submission: false is returned and nothing has changed. *)
Definition submit_refused (s : state) (transmit_data : list Z)
           (num_bytes : Z) : Prop :=
  send_encoded_data s transmit_data num_bytes = (0, s).


(** The round trip of the design document for one packet: the receiver
    recovers, bit period by bit period, the framing byte followed by the
    payload. *)
Definition round_trip_as_documented (fuel : nat) (enc : encoding)
           (s : state) (transmit_data : list Z) (num_bytes : Z) : Prop :=
  decode_levels enc (packet_levels fuel enc s transmit_data num_bytes)
  = map Some (bytes_bits
                (START_BYTE :: firstn (Z.to_nat num_bytes) transmit_data)).

(** The level of the line once the comparison with [prev] has been made
    (lines 142-144). *)
Definition after_compare (s : state) : bool :=
  if next_bit_of s =? prev s then negb (PA4 s) else PA4 s.

(** A bit period with its clock edge: the two halves differ. *)
Definition has_mid_bit_transition (p : bool * bool) : Prop := fst p <> snd p.

(** ** Bookkeeping of a transmission *)

(** Number of ticks left before the handler disables the timer: two per
    bit still to be read, less the clock edge already taken when the next
    tick is a data edge. *)
Definition ticks_left (s : state) : Z :=
  2 * (8 * (transmit_buffer_length s - 1 - transmit_buffer_index s)
       + bit_index s + 1)
  - (if clk s =? 0 then 1 else 0).

(** A transmission under way: the timer runs and the indices are inside
    the queued bytes. *)
Definition transmitting (s : state) : Prop :=
  TCB_ENABLE s = true
  /\ 0 <= transmit_buffer_index s < transmit_buffer_length s
  /\ transmit_buffer_length s <= 255
  /\ 0 <= bit_index s <= 7.

(** The state the handler leaves behind when a packet is complete. *)
Definition idle (enc : encoding) (s : state) : Prop :=
  sending_in_progress s = 0
  /\ TCB_ENABLE s = false
  /\ clk s = 1
  /\ transmit_buffer_index s = 0
  /\ bit_index s = 6
  /\ PA4 s = rest_level enc.

(** The moves of the whole program: a tick of the enabled timer, an
    accepted call of [send_encoded_data] with a byte count that leaves
    room for one more byte, the re-enabling of the timer by the main
    loop. *)
Inductive step (enc : encoding) : state -> state -> Prop :=
| step_tick s :
    TCB_ENABLE s = true -> step enc s (ISR enc s)
| step_send s transmit_data num_bytes s' :
    0 <= num_bytes <= 254 ->
    send_encoded_data s transmit_data num_bytes = (1, s') ->
    step enc s s'
| step_enable s :
    sending_in_progress s <> 0 -> TCB_ENABLE s = false ->
    step enc s (set_TCB_ENABLE true s).

Inductive reachable (enc : encoding) : state -> Prop :=
| reachable_initial : reachable enc (initial_state enc)
| reachable_step s s' :
    reachable enc s -> step enc s s' -> reachable enc s'.

(** What holds of every reachable state. *)
Definition index_invariant (s : state) : Prop :=
  0 <= bit_index s <= 7
  /\ 0 <= transmit_buffer_length s <= 255
  /\ (sending_in_progress s = 0 ->
      transmit_buffer_index s = 0
      /\ (TCB_ENABLE s = true -> transmit_buffer_length s = 0))
  /\ (sending_in_progress s <> 0 ->
      0 <= transmit_buffer_index s < transmit_buffer_length s).

(** ** Shape of the generated waveform *)

(** The bit period the encoder produces for the bit [b]: the first half is
    the bit, complemented when [inv] holds, and the second half is the
    opposite level. *)
Definition line_code (inv : bool) (b : Z) : bool * bool :=
  let first := xorb (b =? 1) inv in (first, negb first).

(** Whether the bit periods that follow state [s], which is about to take
    a data edge, are complemented: the first half of the running bit
    period (the opposite of the present level) against [prev]. *)
Definition polarity (s : state) : bool :=
  xorb (negb (PA4 s)) (prev s =? 1).

(** Rank, among the bits of the queued bytes taken most significant
    first, of the bit the next data edge reads. *)
Definition bit_position (s : state) : nat :=
  Z.to_nat (8 * transmit_buffer_index s + (7 - bit_index s)).

(** Comparison of what a receiver decoded with what it should have. *)
Definition same_bit (a b : option Z) : bool :=
  match a, b with
  | Some x, Some y => x =? y
  | None, None => true
  | _, _ => false
  end.

Fixpoint same_bits (a b : list (option Z)) : bool :=
  match a, b with
  | [], [] => true
  | x :: a', y :: b' => same_bit x y && same_bits a' b'
  | _, _ => false
  end.

(** ** States of the example program *)

(** The first pass of the main loop has handed the example packet over
    while the timer, enabled by [TCB0_init], is running. *)
Definition first_packet_queued (enc : encoding) : state :=
  snd (send_encoded_data (initial_state enc) transmit_example
                         TRANSMIT_EXAMPLE_SIZE).

(** The same transmission one tick before its end, and at its end. *)
Definition first_packet_last_edge (enc : encoding) : state :=
  run 301 enc (first_packet_queued enc).

Definition first_packet_sent (enc : encoding) : state :=
  run 302 enc (first_packet_queued enc).

(** ** Whole transmissions and the main loop *)

(** A packet from hand-over to the end: the call of [send_encoded_data],
    the enabling of the timer, the ticks. *)
Definition transmit (fuel : nat) (enc : encoding) (s : state)
           (transmit_data : list Z) (num_bytes : Z) : state :=
  run fuel enc
      (set_TCB_ENABLE true (snd (send_encoded_data s transmit_data num_bytes))).

(** The ranges of the variables the handler works with: a byte index
    inside the 255 bytes of the buffer, an 8-bit length, a bit index inside
    a byte. *)
Definition in_range (s : state) : Prop :=
  0 <= transmit_buffer_index s <= 254
  /\ 0 <= transmit_buffer_length s <= 255
  /\ 0 <= bit_index s <= 7.

(** Ticks before the handler disables the timer, whatever the state: the
    bits left in the byte being read, and eight for every further byte
    below the length. *)
Definition ticks_to_stop (s : state) : Z :=
  2 * (8 * Z.max 0 (transmit_buffer_length s - 1 - transmit_buffer_index s)
       + bit_index s + 1)
  - (if clk s =? 0 then 1 else 0).

(** The moves of the program with every byte count a [uint8_t] holds: a
    tick of the enabled timer, a call of [send_encoded_data], accepted or
    not, the enabling of the timer by the main loop. *)
Inductive program_step (enc : encoding) : state -> state -> Prop :=
| program_tick s :
    TCB_ENABLE s = true -> program_step enc s (ISR enc s)
| program_send s transmit_data num_bytes :
    0 <= num_bytes <= 255 ->
    program_step enc s (snd (send_encoded_data s transmit_data num_bytes))
| program_enable s :
    sending_in_progress s <> 0 -> TCB_ENABLE s = false ->
    program_step enc s (set_TCB_ENABLE true s).

Inductive program_reachable (enc : encoding) : state -> Prop :=
| program_start : program_reachable enc (initial_state enc)
| program_next s s' :
    program_reachable enc s -> program_step enc s s' ->
    program_reachable enc s'.

(** What the handler needs to read inside the buffer, made inductive. *)
Definition access_invariant (s : state) : Prop :=
  length (transmit_buffer s) = 255%nat
  /\ 0 <= bit_index s <= 7
  /\ 0 <= transmit_buffer_length s <= 255
  /\ (prev s = 0 \/ prev s = 1)
  /\ (transmit_buffer_index s = 0
      \/ (sending_in_progress s <> 0
          /\ 0 <= transmit_buffer_index s < transmit_buffer_length s))
  /\ (sending_in_progress s = 0 -> TCB_ENABLE s = true ->
      transmit_buffer_length s = 0).

(** No level held for three half-bit periods in a row. *)
Fixpoint no_three_equal (levels : list bool) : Prop :=
  match levels with
  | a :: t =>
      match t with
      | b :: c :: _ => ~ (a = b /\ b = c)
      | _ => True
      end
      /\ no_three_equal t
  | [] => True
  end.

(** The main loop over a list of packets.  The handler interrupts the spin
    of the inner [while], so a call is accepted once the handler has
    cleared the flag: each pass below starts from the state the previous
    transmission ended in.  The result is the levels of the line for each
    packet and the state after the last one; a refused call ends the
    list. *)
Fixpoint main_loop (fuel : nat) (enc : encoding) (baud : Z)
         (m : main_state) (packets : list (list Z * Z))
  : list (list bool) * main_state :=
  match packets with
  | [] => ([], m)
  | (transmit_data, num_bytes) :: rest =>
      match main_pass baud m transmit_data num_bytes with
      | None => ([], m)
      | Some m' =>
          let after := mkMain (run fuel enc (mcu m')) (delay_calls m')
                              (delayed_us m') in
          let (levels, final) := main_loop fuel enc baud after rest in
          (line_levels fuel enc (mcu m') :: levels, final)
      end
  end.

(** A state in which a packet of [num_bytes] bytes can be handed over and
    will be read back as sent: no transmission under way, the statics of
    the handler at their start values with [prev] clear, the line at rest,
    and an even byte behind the place of the payload. *)
Definition clean (enc : encoding) (num_bytes : Z) (s : state) : Prop :=
  sending_in_progress s = 0
  /\ clk s = 1
  /\ transmit_buffer_index s = 0
  /\ bit_index s = 6
  /\ prev s = 0
  /\ PA4 s = rest_level enc
  /\ length (transmit_buffer s) = 255%nat
  /\ bit_of (load (transmit_buffer s) (Z.to_nat num_bytes)) 0 = 0.

(** A packet of [num_bytes] bytes whose first bit is clear. *)
Definition plain_packet (num_bytes : Z) (p : list Z * Z) : Prop :=
  snd p = num_bytes
  /\ length (fst p) = Z.to_nat num_bytes
  /\ bit_of (load (fst p) 0) 7 = 0.

(** ** Machine integers: basic facts *)

Lemma uint8_range z : 0 <= uint8 z < 256.
Proof. unfold uint8. apply Z.mod_pos_bound. lia. Qed.

Lemma uint8_small z : 0 <= z < 256 -> uint8 z = z.
Proof. intros H. unfold uint8. apply Z.mod_small. exact H. Qed.


(** ** One run of the interrupt handler *)

Lemma ISR_clock_edge enc s :
  clk s <> 0 ->
  ISR enc s = set_PA4 (negb (PA4 s)) (set_clk 0 s).
Proof.
  intros H. unfold ISR.
  destruct (clk s =? 0) eqn:E; [apply Z.eqb_eq in E; contradiction|].
  reflexivity.
Qed.

Lemma ISR_data_edge_same_byte enc s :
  clk s = 0 -> bit_index s <> 0 ->
  ISR enc s =
  mkState (transmit_buffer s) (transmit_buffer_length s)
          (sending_in_progress s) (next_bit_of s) 1
          (transmit_buffer_index s) (uint8 (bit_index s - 1))
          (after_compare s) (TCB_ENABLE s).
Proof.
  intros Hc Hb. unfold ISR, after_compare. rewrite Hc. simpl.
  destruct (next_bit_of s =? prev s); simpl;
    (destruct (bit_index s =? 0) eqn:E;
     [apply Z.eqb_eq in E; contradiction | reflexivity]).
Qed.

Lemma ISR_data_edge_next_byte enc s :
  clk s = 0 -> bit_index s = 0 ->
  uint8 (transmit_buffer_index s + 1) < transmit_buffer_length s ->
  ISR enc s =
  mkState (transmit_buffer s) (transmit_buffer_length s)
          (sending_in_progress s) (next_bit_of s) 1
          (uint8 (transmit_buffer_index s + 1)) 7
          (after_compare s) (TCB_ENABLE s).
Proof.
  intros Hc Hb Hlt. unfold ISR, after_compare. rewrite Hc. simpl.
  destruct (next_bit_of s =? prev s); simpl; rewrite Hb; simpl;
    (destruct (transmit_buffer_length s
               <=? uint8 (transmit_buffer_index s + 1)) eqn:E;
     [apply Z.leb_le in E; lia | reflexivity]).
Qed.

Lemma ISR_data_edge_last_bit enc s :
  clk s = 0 -> bit_index s = 0 ->
  transmit_buffer_length s <= uint8 (transmit_buffer_index s + 1) ->
  ISR enc s =
  mkState (transmit_buffer s) (transmit_buffer_length s) 0
          (next_bit_of s) 1 0 6 (rest_level enc) false.
Proof.
  intros Hc Hb Hle. unfold ISR. rewrite Hc. simpl.
  destruct (next_bit_of s =? prev s); simpl; rewrite Hb; simpl;
    (destruct (transmit_buffer_length s
               <=? uint8 (transmit_buffer_index s + 1)) eqn:E;
     [destruct enc; reflexivity | apply Z.leb_gt in E; lia]).
Qed.

Lemma last_bit_consumed_spec s :
  last_bit_consumed s = true <->
  bit_index s = 0
  /\ transmit_buffer_length s <= uint8 (transmit_buffer_index s + 1).
Proof.
  unfold last_bit_consumed. rewrite andb_true_iff, Z.eqb_eq, Z.leb_le.
  reflexivity.
Qed.

Lemma last_bit_consumed_false s :
  last_bit_consumed s = false ->
  bit_index s <> 0
  \/ (bit_index s = 0
      /\ uint8 (transmit_buffer_index s + 1) < transmit_buffer_length s).
Proof.
  unfold last_bit_consumed. rewrite andb_false_iff, Z.eqb_neq, Z.leb_gt.
  intros [H | H]; [left; exact H|].
  destruct (Z.eq_dec (bit_index s) 0); [right; split; assumption | left; assumption].
Qed.

Lemma ISR_clk_after_data_edge enc s : clk s = 0 -> clk (ISR enc s) = 1.
Proof.
  intros Hc.
  destruct (last_bit_consumed s) eqn:E.
  - apply last_bit_consumed_spec in E. destruct E as [Hb Hl].
    rewrite (ISR_data_edge_last_bit enc s Hc Hb Hl). reflexivity.
  - apply last_bit_consumed_false in E. destruct E as [Hb | [Hb Hl]].
    + rewrite (ISR_data_edge_same_byte enc s Hc Hb). reflexivity.
    + rewrite (ISR_data_edge_next_byte enc s Hc Hb Hl). reflexivity.
Qed.

Lemma ISR_prev enc s :
  prev (ISR enc s) = if clk s =? 0 then next_bit_of s else prev s.
Proof.
  destruct (clk s =? 0) eqn:Ec.
  - apply Z.eqb_eq in Ec.
    destruct (last_bit_consumed s) eqn:E.
    + apply last_bit_consumed_spec in E. destruct E as [Hb Hl].
      rewrite (ISR_data_edge_last_bit enc s Ec Hb Hl). reflexivity.
    + apply last_bit_consumed_false in E. destruct E as [Hb | [Hb Hl]].
      * rewrite (ISR_data_edge_same_byte enc s Ec Hb). reflexivity.
      * rewrite (ISR_data_edge_next_byte enc s Ec Hb Hl). reflexivity.
  - apply Z.eqb_neq in Ec. rewrite (ISR_clock_edge enc s Ec). reflexivity.
Qed.

Lemma ISR_pin_is_port_writes enc s :
  PA4 (ISR enc s) = fold_left port_apply (ISR_port_writes enc s) (PA4 s).
Proof.
  unfold ISR_port_writes.
  destruct (clk s =? 0) eqn:Ec; simpl.
  - apply Z.eqb_eq in Ec.
    destruct (last_bit_consumed s) eqn:E.
    + pose proof E as E'.
      apply last_bit_consumed_spec in E'. destruct E' as [Hb Hl].
      rewrite (ISR_data_edge_last_bit enc s Ec Hb Hl). simpl.
      rewrite fold_left_app. simpl. destruct enc; reflexivity.
    + rewrite app_nil_r.
      assert (Hpin : PA4 (ISR enc s) = after_compare s).
      { apply last_bit_consumed_false in E. destruct E as [Hb | [Hb Hl]].
        - rewrite (ISR_data_edge_same_byte enc s Ec Hb). reflexivity.
        - rewrite (ISR_data_edge_next_byte enc s Ec Hb Hl). reflexivity. }
      rewrite Hpin. unfold after_compare.
      destruct (next_bit_of s =? prev s); reflexivity.
  - apply Z.eqb_neq in Ec. rewrite (ISR_clock_edge enc s Ec). reflexivity.
Qed.

Lemma toggle_written_iff enc s :
  clk s = 0 ->
  (In OUTTGL (ISR_port_writes enc s) <-> next_bit_of s = prev s).
Proof.
  intros Hc. unfold ISR_port_writes. rewrite Hc. simpl.
  rewrite in_app_iff.
  destruct (next_bit_of s =? prev s) eqn:E.
  - apply Z.eqb_eq in E. split; [intros _; exact E | intros _; left; left; reflexivity].
  - apply Z.eqb_neq in E. split; [|intros H; contradiction].
    intros [[] | H].
    destruct (last_bit_consumed s); [|destruct H].
    destruct H as [H | []]. destruct enc; discriminate H.
Qed.

(** ** The clock edge in every bit period *)

Lemma mid_bit_transitions_aux enc fuel :
  forall s,
    (clk s <> 0 ->
     Forall has_mid_bit_transition (bit_periods (PA4 s :: waveform fuel enc s)))
    /\ (clk s = 0 ->
        Forall has_mid_bit_transition (bit_periods (waveform fuel enc s))).
Proof.
  induction fuel as [|f IH]; intros s; simpl.
  - split; intros _; constructor.
  - destruct (TCB_ENABLE s); [|split; intros _; constructor].
    split; intros Hc.
    + constructor.
      * unfold has_mid_bit_transition. simpl.
        rewrite (ISR_clock_edge enc s Hc). simpl.
        destruct (PA4 s); discriminate.
      * apply (IH (ISR enc s)).
        rewrite (ISR_clock_edge enc s Hc). reflexivity.
    + apply (IH (ISR enc s)).
      rewrite (ISR_clk_after_data_edge enc s Hc). discriminate.
Qed.

(** ** Length of a transmission *)

(** Projections of an explicit state, without touching the arithmetic. *)
Ltac fields :=
  cbn [transmit_buffer transmit_buffer_length sending_in_progress prev clk
       transmit_buffer_index bit_index PA4 TCB_ENABLE] in *;
  change (1 =? 0) with false in *; cbv iota in *.

Lemma ticks_left_positive s : transmitting s -> 1 <= ticks_left s.
Proof.
  unfold transmitting, ticks_left. intros (_ & Hi & Hl & Hb).
  destruct (clk s =? 0); lia.
Qed.

Lemma ISR_progress enc s :
  transmitting s -> 1 < ticks_left s ->
  transmitting (ISR enc s)
  /\ ticks_left (ISR enc s) = ticks_left s - 1
  /\ transmit_buffer (ISR enc s) = transmit_buffer s
  /\ transmit_buffer_length (ISR enc s) = transmit_buffer_length s
  /\ sending_in_progress (ISR enc s) = sending_in_progress s.
Proof.
  unfold transmitting, ticks_left. intros (He & Hi & Hl & Hb) Ht.
  destruct (clk s =? 0) eqn:Ec.
  - apply Z.eqb_eq in Ec.
    assert (Hrange : 0 <= transmit_buffer_index s + 1 < 256) by lia.
    destruct (Z.eq_dec (bit_index s) 0) as [Hz | Hnz].
    + assert (Hu : uint8 (transmit_buffer_index s + 1)
                   = transmit_buffer_index s + 1)
        by (apply uint8_small; lia).
      assert (Hlt : uint8 (transmit_buffer_index s + 1)
                    < transmit_buffer_length s) by lia.
      rewrite (ISR_data_edge_next_byte enc s Ec Hz Hlt). fields.
      rewrite Hu. repeat split; try assumption; lia.
    + assert (Hu : uint8 (bit_index s - 1) = bit_index s - 1)
        by (apply uint8_small; lia).
      rewrite (ISR_data_edge_same_byte enc s Ec Hnz). fields.
      rewrite Hu. repeat split; try assumption; lia.
  - apply Z.eqb_neq in Ec.
    rewrite (ISR_clock_edge enc s Ec). unfold set_PA4, set_clk. fields.
    change (0 =? 0) with true. cbv iota.
    repeat split; try assumption; lia.
Qed.

Lemma ISR_finish enc s :
  transmitting s -> ticks_left s = 1 ->
  ISR enc s =
  mkState (transmit_buffer s) (transmit_buffer_length s) 0
          (next_bit_of s) 1 0 6 (rest_level enc) false.
Proof.
  unfold transmitting, ticks_left. intros (He & Hi & Hl & Hb) Ht.
  destruct (clk s =? 0) eqn:Ec; [|lia].
  apply Z.eqb_eq in Ec.
  assert (Hz : bit_index s = 0) by lia.
  apply (ISR_data_edge_last_bit enc s Ec Hz).
  rewrite uint8_small; lia.
Qed.

Lemma waveform_length enc :
  forall fuel s,
    transmitting s ->
    ticks_left s <= Z.of_nat fuel ->
    Z.of_nat (length (waveform fuel enc s)) = ticks_left s
    /\ idle enc (run fuel enc s)
    /\ transmit_buffer (run fuel enc s) = transmit_buffer s
    /\ transmit_buffer_length (run fuel enc s) = transmit_buffer_length s.
Proof.
  induction fuel as [|f IH]; intros s Ht Hf.
  - pose proof (ticks_left_positive s Ht). simpl in Hf. lia.
  - pose proof (ticks_left_positive s Ht) as Hpos.
    simpl. destruct Ht as (He & Hrest). rewrite He.
    assert (Ht : transmitting s) by (split; assumption).
    destruct (Z.eq_dec (ticks_left s) 1) as [H1 | H1].
    + rewrite (ISR_finish enc s Ht H1).
      destruct f; simpl; rewrite H1;
        (split; [reflexivity | split; [|split; reflexivity]]);
        unfold idle; simpl; repeat split; reflexivity.
    + destruct (ISR_progress enc s Ht ltac:(lia)) as (Ht' & Hd & Hb & Hl & _).
      destruct (IH (ISR enc s) Ht' ltac:(lia)) as (Hlen & Hidle & Hbuf & Hlen').
      simpl length. rewrite Nat2Z.inj_succ, Hlen.
      split; [lia|]. split; [exact Hidle|].
      split; congruence.
Qed.

(** ** send_encoded_data *)

Lemma send_accepts s transmit_data num_bytes :
  sending_in_progress s = 0 ->
  send_encoded_data s transmit_data num_bytes =
  (1, mkState (copy_loop (Z.to_nat num_bytes) 0 transmit_data
                         (transmit_buffer s))
              (uint8 (num_bytes + 1)) 1 (prev s) (clk s)
              (transmit_buffer_index s) (bit_index s) (PA4 s)
              (TCB_ENABLE s)).
Proof.
  intros H. unfold send_encoded_data. rewrite H. reflexivity.
Qed.

Lemma send_refuses s transmit_data num_bytes :
  sending_in_progress s <> 0 ->
  send_encoded_data s transmit_data num_bytes = (0, s).
Proof.
  intros H. unfold send_encoded_data.
  destruct (sending_in_progress s =? 0) eqn:E; [|reflexivity].
  apply Z.eqb_eq in E. contradiction.
Qed.

Lemma store_length a : forall i v, length (store a i v) = length a.
Proof.
  induction a as [|h t IH]; intros [|j] v; simpl; try reflexivity.
  rewrite IH. reflexivity.
Qed.

Lemma load_store_same a : forall i v,
  (i < length a)%nat -> load (store a i v) i = v.
Proof.
  unfold load.
  induction a as [|h t IH]; intros [|j] v H; simpl in *; try lia.
  apply IH. lia.
Qed.

Lemma load_store_other a : forall i j v,
  i <> j -> load (store a i v) j = load a j.
Proof.
  unfold load.
  induction a as [|h t IH]; intros [|i] [|j] v H; simpl; try reflexivity.
  - contradiction.
  - apply IH. intros E. apply H. rewrite E. reflexivity.
Qed.

Lemma copy_loop_length n : forall i transmit_data buf,
  length (copy_loop n i transmit_data buf) = length buf.
Proof.
  induction n as [|k IH]; intros i d buf; simpl; [reflexivity|].
  rewrite IH. apply store_length.
Qed.

(** After the loop, the elements [i .. i+n-1] of the buffer are those of
    the payload at the same indices and the others are untouched. *)
Lemma copy_loop_load n : forall i transmit_data buf j,
  (i + n <= length buf)%nat ->
  load (copy_loop n i transmit_data buf) j
  = if (Nat.leb i j && Nat.ltb j (i + n))%bool
    then load transmit_data j else load buf j.
Proof.
  induction n as [|k IH]; intros i d buf j Hlen; cbn [copy_loop].
  - destruct (Nat.leb i j && Nat.ltb j (i + 0))%bool eqn:E; [|reflexivity].
    apply andb_true_iff in E. destruct E as [E1 E2].
    apply Nat.leb_le in E1. apply Nat.ltb_lt in E2. lia.
  - rewrite IH by (rewrite store_length; lia).
    destruct (Nat.leb (S i) j && Nat.ltb j (S i + k))%bool eqn:E.
    + apply andb_true_iff in E. destruct E as [E1 E2].
      apply Nat.leb_le in E1. apply Nat.ltb_lt in E2.
      replace (Nat.leb i j && Nat.ltb j (i + S k))%bool with true;
        [reflexivity|].
      symmetry. apply andb_true_iff.
      split; [apply Nat.leb_le | apply Nat.ltb_lt]; lia.
    + apply andb_false_iff in E.
      destruct (Nat.eq_dec i j) as [Heq | Hne].
      * subst j.
        replace (Nat.leb i i && Nat.ltb i (i + S k))%bool with true.
        -- apply load_store_same. lia.
        -- symmetry. apply andb_true_iff.
           split; [apply Nat.leb_le | apply Nat.ltb_lt]; lia.
      * replace (Nat.leb i j && Nat.ltb j (i + S k))%bool with false.
        -- apply load_store_other. exact Hne.
        -- symmetry. apply andb_false_iff.
           destruct E as [E | E];
             [left; apply Nat.leb_gt in E; apply Nat.leb_gt
             | right; apply Nat.ltb_ge in E; apply Nat.ltb_ge]; lia.
Qed.

(** ** The invariant of the indices *)

Ltac close_invariant :=
  repeat split; try lia; try tauto;
  try (intros; discriminate); try (intros; contradiction).

Lemma index_invariant_initial enc : index_invariant (initial_state enc).
Proof.
  destruct enc; unfold index_invariant; simpl;
    repeat split; try lia; try reflexivity; intros H; try contradiction.
Qed.

Lemma index_invariant_tick enc s :
  index_invariant s -> TCB_ENABLE s = true -> index_invariant (ISR enc s).
Proof.
  unfold index_invariant. intros (Hb & Hl & Hidle & Hbusy) He.
  destruct (Z.eq_dec (clk s) 0) as [Hc | Hc].
  - destruct (last_bit_consumed s) eqn:E.
    + apply last_bit_consumed_spec in E. destruct E as [Hz Hle].
      rewrite (ISR_data_edge_last_bit enc s Hc Hz Hle). fields.
      close_invariant.
    + apply last_bit_consumed_false in E.
      destruct E as [Hnz | [Hz Hlt]].
      * rewrite (ISR_data_edge_same_byte enc s Hc Hnz). fields.
        rewrite (uint8_small (bit_index s - 1)) by lia.
        close_invariant.
      * destruct (Z.eq_dec (sending_in_progress s) 0) as [Hi | Hs].
        -- destruct (Hidle Hi) as [Hidx Hlen].
           rewrite Hidx, (Hlen He) in Hlt.
           pose proof (uint8_range (0 + 1)). lia.
        -- pose proof (Hbusy Hs) as Hidx.
           rewrite (uint8_small (transmit_buffer_index s + 1)) in Hlt by lia.
           rewrite (ISR_data_edge_next_byte enc s Hc Hz
                      ltac:(rewrite uint8_small; lia)).
           fields.
           rewrite (uint8_small (transmit_buffer_index s + 1)) by lia.
           close_invariant.
  - rewrite (ISR_clock_edge enc s Hc). unfold set_PA4, set_clk. fields.
    close_invariant.
Qed.

Lemma index_invariant_step enc s s' :
  index_invariant s -> step enc s s' -> index_invariant s'.
Proof.
  intros Hinv Hstep. destruct Hstep as [s He | s d n s' Hn Hsend | s Hs He].
  - apply index_invariant_tick; assumption.
  - destruct (Z.eq_dec (sending_in_progress s) 0) as [Hi | Hs].
    + rewrite (send_accepts s d n Hi) in Hsend.
      injection Hsend as <-.
      destruct Hinv as (Hb & Hl & Hidle & Hbusy).
      destruct (Hidle Hi) as [Hidx _].
      unfold index_invariant. fields.
      rewrite (uint8_small (n + 1)) by lia.
      close_invariant.
    + rewrite (send_refuses s d n Hs) in Hsend. discriminate.
  - destruct Hinv as (Hb & Hl & Hidle & Hbusy).
    unfold index_invariant, set_TCB_ENABLE. fields.
    close_invariant.
Qed.

(** The states a run of the timer goes through are reachable. *)
Lemma ticks_are_steps fuel enc : forall s s',
  reachable enc s -> run fuel enc s = s' -> reachable enc s'.
Proof.
  induction fuel as [|f IH]; intros s s' Hr Hrun; cbn [run] in Hrun.
  - subst s'. exact Hr.
  - destruct (TCB_ENABLE s) eqn:He.
    + apply (IH (ISR enc s) s'); [|exact Hrun].
      apply (reachable_step enc s); [exact Hr|].
      apply step_tick. exact He.
    + subst s'. exact Hr.
Qed.

Lemma reachable_index_invariant enc s :
  reachable enc s -> index_invariant s.
Proof.
  induction 1 as [|s s' _ IH Hstep].
  - apply index_invariant_initial.
  - apply (index_invariant_step enc s s' IH Hstep).
Qed.

(** ** The guard delay *)

Lemma guard_loop_effect i : forall m,
  guard_loop i m =
  (mkMain (mcu m) (delay_calls m + Z.of_nat i)
          (delayed_us m + 250 * Z.of_nat i),
   repeat (TCB_ENABLE (mcu m)) i).
Proof.
  induction i as [|k IH]; intros m.
  - cbn [guard_loop repeat]. destruct m as [s c u].
    cbn [mcu delay_calls delayed_us]. f_equal. f_equal; lia.
  - cbn [guard_loop repeat]. rewrite IH. unfold _delay_us.
    cbn [mcu delay_calls delayed_us]. f_equal. f_equal; lia.
Qed.

(** [guardTicks] is the quotient rounded up. *)
Lemma guardTicks_is_ceiling baud :
  0 < baud ->
  2048000 <= guardTicks baud * baud
  /\ (guardTicks baud - 1) * baud < 2048000.
Proof.
  intros H. unfold guardTicks.
  pose proof (Z.div_mod (2048000 + baud - 1) baud ltac:(lia)) as Hd.
  pose proof (Z.mod_pos_bound (2048000 + baud - 1) baud H) as Hm.
  split; nia.
Qed.

Lemma guard_and_enable_effect baud m :
  sending_in_progress (mcu m) <> 0 ->
  TCB_ENABLE (mcu m) = false ->
  guard_and_enable baud m =
  (mkMain (set_TCB_ENABLE true (mcu m))
          (delay_calls m + guard_count baud)
          (delayed_us m + 250 * guard_count baud),
   repeat false (Z.to_nat (guard_count baud))).
Proof.
  intros Hs He. unfold guard_and_enable.
  destruct (sending_in_progress (mcu m) =? 0) eqn:E;
    [apply Z.eqb_eq in E; contradiction|].
  rewrite He. cbn [negb andb].
  rewrite guard_loop_effect, He. cbn [mcu delay_calls delayed_us].
  rewrite Z2Nat.id; [reflexivity|].
  unfold guard_count. apply uint8_range.
Qed.

Lemma guard_and_enable_skip baud m :
  sending_in_progress (mcu m) = 0 \/ TCB_ENABLE (mcu m) = true ->
  guard_and_enable baud m = (m, []).
Proof.
  intros [H | H]; unfold guard_and_enable; rewrite H.
  - reflexivity.
  - rewrite andb_false_r. reflexivity.
Qed.

(** ** Properties of the design document *)

(** C3.  A data-edge run of the handler that reads the last bit of the
    queued bytes (bit index 0, and the incremented byte index not below the
    length) drives the pin to the rest level of the convention, resets the
    byte index to 0 and the bit index to 6, clears the ENABLE bit of the
    timer and clears [sending_in_progress]. *)
Theorem packet_completion enc s :
  clk s = 0 ->
  bit_index s = 0 ->
  transmit_buffer_length s <= uint8 (transmit_buffer_index s + 1) ->
  In (rest_write enc) (ISR_port_writes enc s)
  /\ PA4 (ISR enc s) = rest_level enc
  /\ transmit_buffer_index (ISR enc s) = 0
  /\ bit_index (ISR enc s) = 6
  /\ TCB_ENABLE (ISR enc s) = false
  /\ sending_in_progress (ISR enc s) = 0
  /\ idle enc (ISR enc s).
Proof.
  intros Hc Hz Hle.
  split.
  - unfold ISR_port_writes. rewrite Hc. cbn [Z.eqb negb].
    apply in_or_app. right.
    replace (last_bit_consumed s) with true
      by (symmetry; apply last_bit_consumed_spec; split; assumption).
    left. reflexivity.
  - rewrite (ISR_data_edge_last_bit enc s Hc Hz Hle). unfold idle. fields.
    repeat split; reflexivity.
Qed.

Lemma packet_completion_witness :
  let s := first_packet_last_edge ENCODING_G_E_THOMAS in
  (clk s = 0 /\ bit_index s = 0 /\ transmit_buffer_index s = 18
   /\ transmit_buffer_length s = 19)
  /\ PA4 (ISR ENCODING_G_E_THOMAS s) = false
  /\ TCB_ENABLE (ISR ENCODING_G_E_THOMAS s) = false
  /\ sending_in_progress (ISR ENCODING_G_E_THOMAS s) = 0.
Proof.
  intros s. split.
  - vm_compute. repeat split; reflexivity.
  - pose proof (packet_completion ENCODING_G_E_THOMAS s) as H.
    destruct H as (_ & Hp & _ & _ & He & Hs & _).
    + vm_compute. reflexivity.
    + vm_compute. reflexivity.
    + vm_compute. discriminate.
    + repeat split; assumption.
Defined.

(** C6.  A call of [send_encoded_data] made while [sending_in_progress] is
    set returns 0 and changes nothing: buffer, length and flag are those of
    before the call. *)
Theorem send_while_busy s transmit_data num_bytes :
  sending_in_progress s <> 0 ->
  submit_refused s transmit_data num_bytes.
Proof.
  intros H. unfold submit_refused. apply send_refuses. exact H.
Qed.

Lemma send_while_busy_witness :
  sending_in_progress (first_packet_queued ENCODING_G_E_THOMAS) = 1
  /\ send_encoded_data (first_packet_queued ENCODING_G_E_THOMAS) [1; 2; 3] 3
     = (0, first_packet_queued ENCODING_G_E_THOMAS).
Proof.
  split; [reflexivity|].
  apply (send_while_busy (first_packet_queued ENCODING_G_E_THOMAS) [1; 2; 3] 3).
  vm_compute. discriminate.
Defined.

(** C5, as written, fails: a 255-byte payload, one more than the buffer
    holds besides the framing byte, handed over at program start is not
    refused. *)
Lemma oversized_payload_not_refused :
  TRANSMIT_BUFFER_SIZE - 1 < 255
  /\ sending_in_progress (initial_state ENCODING_G_E_THOMAS) = 0
  /\ ~ submit_refused (initial_state ENCODING_G_E_THOMAS) (repeat 65 255) 255.
Proof.
  split; [reflexivity|]. split; [reflexivity|].
  unfold submit_refused. intros H.
  apply (f_equal fst) in H. vm_compute in H. discriminate H.
Qed.

(** C5, amended.  [send_encoded_data] has no test on the byte count: a
    call made while [sending_in_progress] is clear is accepted also when
    the count exceeds the capacity less the framing byte.  The only such
    count a [uint8_t] holds is 255: the call returns 1, sets the flag,
    stores the length 0 (256 modulo 256) and fills the 255 bytes of the
    buffer with the payload. *)
Theorem send_has_no_size_check s transmit_data num_bytes :
  sending_in_progress s = 0 ->
  TRANSMIT_BUFFER_SIZE - 1 < num_bytes < 256 ->
  length (transmit_buffer s) = 255%nat ->
  let r := send_encoded_data s transmit_data num_bytes in
  fst r = 1
  /\ sending_in_progress (snd r) = 1
  /\ transmit_buffer_length (snd r) = 0
  /\ (forall j, (j < 255)%nat ->
        load (transmit_buffer (snd r)) j = load transmit_data j).
Proof.
  intros Hidle Hn Hlen r. unfold TRANSMIT_BUFFER_SIZE in Hn.
  assert (Hn' : num_bytes = 255) by lia. subst num_bytes.
  subst r. rewrite (send_accepts s transmit_data 255 Hidle).
  cbn [fst snd]. fields.
  repeat split; try reflexivity.
  intros j Hj.
  rewrite copy_loop_load by (rewrite Hlen; simpl; lia).
  replace (Nat.leb 0 j && Nat.ltb j (0 + Z.to_nat 255))%bool with true;
    [reflexivity|].
  symmetry. apply andb_true_iff.
  split; [apply Nat.leb_le | apply Nat.ltb_lt]; lia.
Qed.

Lemma send_has_no_size_check_witness :
  let r := send_encoded_data (initial_state ENCODING_G_E_THOMAS)
                             (repeat 65 255) 255 in
  fst r = 1
  /\ sending_in_progress (snd r) = 1
  /\ transmit_buffer_length (snd r) = 0
  /\ load (transmit_buffer (snd r)) 0 = 65.
Proof.
  intros r.
  pose proof (send_has_no_size_check (initial_state ENCODING_G_E_THOMAS)
                (repeat 65 255) 255 eq_refl (conj eq_refl eq_refl) eq_refl)
    as (H1 & H2 & H3 & H4).
  split; [exact H1|]. split; [exact H2|]. split; [exact H3|].
  exact (H4 0%nat ltac:(lia)).
Defined.




(** C7, as written, fails: a submission of 255 bytes is accepted at program
    start, sets the flag, and leaves the byte index (0) not below the
    length (0). *)
Lemma full_count_breaks_index_bound :
  let r := send_encoded_data (initial_state ENCODING_G_E_THOMAS)
                             (repeat 65 255) 255 in
  fst r = 1
  /\ sending_in_progress (snd r) <> 0
  /\ ~ transmit_buffer_index (snd r) < transmit_buffer_length (snd r).
Proof.
  vm_compute. repeat split; intros H; discriminate H.
Qed.

(** C7, amended.  The byte index is below the length whenever
    [sending_in_progress] is set, for byte counts up to 254: an accepted
    call of [send_encoded_data] with such a count, made with the byte index
    at 0 as it is whenever the flag is clear, establishes the bound; every
    run of the handler preserves it; the run that steps past the last
    queued byte resets the byte index to 0 and the bit index to 6 and
    clears the flag; hence the bound holds in every state the program
    reaches with such counts. *)
Theorem index_below_length enc s transmit_data num_bytes :
  (sending_in_progress s = 0 ->
   transmit_buffer_index s = 0 ->
   0 <= num_bytes <= 254 ->
   let r := send_encoded_data s transmit_data num_bytes in
   fst r = 1
   /\ sending_in_progress (snd r) <> 0
   /\ 0 <= transmit_buffer_index (snd r) < transmit_buffer_length (snd r))
  /\ ((sending_in_progress s <> 0 ->
       0 <= transmit_buffer_index s < transmit_buffer_length s) ->
      transmit_buffer_length s <= 255 ->
      sending_in_progress (ISR enc s) <> 0 ->
      0 <= transmit_buffer_index (ISR enc s)
        < transmit_buffer_length (ISR enc s))
  /\ (clk s = 0 ->
      bit_index s = 0 ->
      transmit_buffer_length s <= uint8 (transmit_buffer_index s + 1) ->
      transmit_buffer_index (ISR enc s) = 0
      /\ bit_index (ISR enc s) = 6
      /\ sending_in_progress (ISR enc s) = 0)
  /\ (reachable enc s ->
      (sending_in_progress s = 0 -> transmit_buffer_index s = 0)
      /\ (sending_in_progress s <> 0 ->
          0 <= transmit_buffer_index s < transmit_buffer_length s)).
Proof.
  split; [|split; [|split]].
  - intros Hidle Hidx Hn r. subst r.
    rewrite (send_accepts s transmit_data num_bytes Hidle).
    cbn [fst snd]. fields.
    rewrite (uint8_small (num_bytes + 1)) by lia.
    repeat split; lia.
  - intros Hinv Hlen Hbusy.
    destruct (Z.eq_dec (clk s) 0) as [Hc | Hc].
    + destruct (last_bit_consumed s) eqn:E.
      * apply last_bit_consumed_spec in E. destruct E as [Hz Hle].
        rewrite (ISR_data_edge_last_bit enc s Hc Hz Hle) in Hbusy.
        fields. contradiction.
      * apply last_bit_consumed_false in E.
        destruct E as [Hnz | [Hz Hlt]].
        -- rewrite (ISR_data_edge_same_byte enc s Hc Hnz) in *. fields.
           auto.
        -- rewrite (ISR_data_edge_next_byte enc s Hc Hz Hlt) in *. fields.
           pose proof (uint8_range (transmit_buffer_index s + 1)). lia.
    + rewrite (ISR_clock_edge enc s Hc) in *.
      unfold set_PA4, set_clk in *. fields. auto.
  - intros Hc Hz Hle.
    rewrite (ISR_data_edge_last_bit enc s Hc Hz Hle). fields.
    repeat split; reflexivity.
  - intros Hr. apply reachable_index_invariant in Hr.
    destruct Hr as (_ & _ & Hidle & Hbusy).
    split; [intros H; apply (Hidle H) | exact Hbusy].
Qed.

Lemma index_below_length_witness :
  let s := first_packet_sent ENCODING_G_E_THOMAS in
  let r := send_encoded_data s transmit_example 18 in
  let u := run 1 ENCODING_G_E_THOMAS
               (first_packet_queued ENCODING_G_E_THOMAS) in
  let v := first_packet_last_edge ENCODING_G_E_THOMAS in
  (sending_in_progress s = 0 /\ transmit_buffer_index s = 0)
  /\ (fst r = 1
      /\ sending_in_progress (snd r) <> 0
      /\ 0 <= transmit_buffer_index (snd r) < transmit_buffer_length (snd r))
  /\ 0 <= transmit_buffer_index (ISR ENCODING_G_E_THOMAS u)
        < transmit_buffer_length (ISR ENCODING_G_E_THOMAS u)
  /\ (transmit_buffer_index (ISR ENCODING_G_E_THOMAS v) = 0
      /\ bit_index (ISR ENCODING_G_E_THOMAS v) = 6
      /\ sending_in_progress (ISR ENCODING_G_E_THOMAS v) = 0)
  /\ (sending_in_progress (snd r) <> 0 ->
      0 <= transmit_buffer_index (snd r) < transmit_buffer_length (snd r)).
Proof.
  intros s r u v. split; [split; reflexivity|].
  split.
  { exact (proj1 (index_below_length ENCODING_G_E_THOMAS s
                    transmit_example 18)
                 eq_refl eq_refl ltac:(lia)). }
  split.
  { apply (proj1 (proj2 (index_below_length ENCODING_G_E_THOMAS u [] 0))).
    - intros _. vm_compute. split; [discriminate | reflexivity].
    - vm_compute. discriminate.
    - vm_compute. discriminate. }
  split.
  { apply (proj1 (proj2 (proj2 (index_below_length ENCODING_G_E_THOMAS v
                                  [] 0)))).
    - reflexivity.
    - reflexivity.
    - vm_compute. discriminate. }
  apply (proj2 (proj2 (proj2 (index_below_length ENCODING_G_E_THOMAS
                                (snd r) [] 0)))).
  apply (reachable_step ENCODING_G_E_THOMAS s (snd r)).
  - apply (ticks_are_steps 302 ENCODING_G_E_THOMAS
             (first_packet_queued ENCODING_G_E_THOMAS) s);
      [|vm_compute; reflexivity].
    apply (reachable_step ENCODING_G_E_THOMAS
             (initial_state ENCODING_G_E_THOMAS)).
    + apply reachable_initial.
    + apply (step_send ENCODING_G_E_THOMAS _ transmit_example 18);
        [lia | vm_compute; reflexivity].
  - apply (step_send ENCODING_G_E_THOMAS s transmit_example 18);
      [lia | vm_compute; reflexivity].
Defined.

(** C8, as written, fails: for the configured 50000 bit/s the guard loop
    makes 40 delay calls before it enables the timer, one less than the
    ceiling of 2048000 / 50000. *)
Lemma guard_is_not_ceiling :
  let m := mkMain (snd (send_encoded_data
                          (first_packet_sent ENCODING_G_E_THOMAS)
                          transmit_example TRANSMIT_EXAMPLE_SIZE)) 0 0 in
  guardTicks BAUD_RATE = 41
  /\ delay_calls (fst (guard_and_enable BAUD_RATE m)) = 40
  /\ length (snd (guard_and_enable BAUD_RATE m)) = 40%nat
  /\ TCB_ENABLE (mcu (fst (guard_and_enable BAUD_RATE m))) = true
  /\ ~ guardTicks BAUD_RATE
       <= delay_calls (fst (guard_and_enable BAUD_RATE m)).
Proof.
  vm_compute. repeat split; try reflexivity. intros H. apply H. reflexivity.
Qed.

(** C8, amended.  When a packet has been accepted and the timer is
    disabled, the main loop makes [2048000 / targetBitRate] calls of the
    250-microsecond delay, the quotient being the integer one (rounded
    down) kept in an 8-bit counter, and enables the timer after them: at
    every one of these calls the ENABLE bit is still clear, and it is set
    in the state the loop leaves; nothing else changes.  Above 8000 bit/s
    the counter holds the quotient itself; for the configured 50000 bit/s
    it is 40. *)
Theorem guard_delay_count baud m :
  0 < baud ->
  sending_in_progress (mcu m) <> 0 ->
  TCB_ENABLE (mcu m) = false ->
  let m' := fst (guard_and_enable baud m) in
  let seen := snd (guard_and_enable baud m) in
  seen = repeat false (Z.to_nat ((2048000 / baud) mod 256))
  /\ Z.of_nat (length seen) = (2048000 / baud) mod 256
  /\ (forall j, (j < length seen)%nat -> nth j seen true = false)
  /\ TCB_ENABLE (mcu m') = true
  /\ delay_calls m' = delay_calls m + (2048000 / baud) mod 256
  /\ delayed_us m' = delayed_us m + 250 * ((2048000 / baud) mod 256)
  /\ mcu m' = set_TCB_ENABLE true (mcu m)
  /\ (8000 < baud -> (2048000 / baud) mod 256 = 2048000 / baud)
  /\ baud * (2048000 / baud) <= 2048000 < baud * (2048000 / baud + 1)
  /\ (baud = BAUD_RATE -> delay_calls m' = delay_calls m + 40).
Proof.
  intros Hb Hs He m' seen. subst m' seen.
  rewrite (guard_and_enable_effect baud m Hs He).
  cbn [fst snd mcu delay_calls delayed_us]. unfold guard_count, uint8.
  pose proof (Z.mod_pos_bound (2048000 / baud) 256 ltac:(lia)) as Hcount.
  split; [reflexivity|].
  split; [rewrite repeat_length; lia|].
  split.
  { intros j Hj. rewrite repeat_length in Hj.
    apply nth_repeat_lt. exact Hj. }
  split; [reflexivity|].
  split; [reflexivity|]. split; [reflexivity|]. split; [reflexivity|].
  pose proof (Z.div_mod 2048000 baud ltac:(lia)) as Hd.
  pose proof (Z.mod_pos_bound 2048000 baud Hb) as Hm.
  split; [|split].
  - intros Hbig. apply Z.mod_small.
    split; [apply Z.div_pos; lia|].
    apply Z.div_lt_upper_bound; lia.
  - lia.
  - intros ->. reflexivity.
Qed.

Lemma guard_delay_count_witness :
  let m := mkMain (snd (send_encoded_data
                          (first_packet_sent ENCODING_G_E_THOMAS)
                          transmit_example TRANSMIT_EXAMPLE_SIZE)) 0 0 in
  (sending_in_progress (mcu m) = 1 /\ TCB_ENABLE (mcu m) = false)
  /\ snd (guard_and_enable BAUD_RATE m) = repeat false 40
  /\ TCB_ENABLE (mcu (fst (guard_and_enable BAUD_RATE m))) = true
  /\ delay_calls (fst (guard_and_enable BAUD_RATE m)) = 0 + 40
  /\ (2048000 / BAUD_RATE) mod 256 = 2048000 / BAUD_RATE.
Proof.
  intros m. split; [split; reflexivity|].
  pose proof (guard_delay_count BAUD_RATE m eq_refl
                ltac:(vm_compute; discriminate) eq_refl)
    as (H2 & _ & _ & H5 & _ & _ & _ & H9 & _ & H11).
  split; [exact H2|]. split; [exact H5|].
  split; [exact (H11 eq_refl) | exact (H9 eq_refl)].
Defined.

(** ** The compare value of the timer *)







(** ** Bit periods of a packet *)

Lemma bit_periods_length_aux (l : list bool) :
  length (bit_periods l) = Nat.div2 (length l)
  /\ forall a, length (bit_periods (a :: l)) = Nat.div2 (S (length l)).
Proof.
  induction l as [|b l [IH1 IH2]].
  - split; [reflexivity | intros a; reflexivity].
  - split; [apply IH2|].
    intros a. cbn [bit_periods length]. rewrite IH1. reflexivity.
Qed.

Lemma bit_periods_length (l : list bool) :
  length (bit_periods l) = Nat.div2 (length l).
Proof. apply bit_periods_length_aux. Qed.

Lemma packet_levels_accepted fuel enc s transmit_data num_bytes :
  sending_in_progress s = 0 ->
  packet_levels fuel enc s transmit_data num_bytes =
  line_levels fuel enc
    (mkState (copy_loop (Z.to_nat num_bytes) 0 transmit_data
                        (transmit_buffer s))
             (uint8 (num_bytes + 1)) 1 (prev s) (clk s)
             (transmit_buffer_index s) (bit_index s) (PA4 s) true).
Proof.
  intros H. unfold packet_levels.
  rewrite (send_accepts s transmit_data num_bytes H). reflexivity.
Qed.

Lemma packet_tick_count fuel enc s transmit_data num_bytes :
  sending_in_progress s = 0 ->
  clk s <> 0 ->
  transmit_buffer_index s = 0 ->
  bit_index s = 6 ->
  0 <= num_bytes <= 254 ->
  16 * (num_bytes + 1) - 2 <= Z.of_nat fuel ->
  Z.of_nat (length (packet_levels fuel enc s transmit_data num_bytes))
  = 16 * (num_bytes + 1) - 1.
Proof.
  intros Hidle Hc Hi Hb Hn Hf.
  rewrite (packet_levels_accepted fuel enc s transmit_data num_bytes Hidle).
  unfold line_levels. cbn [length]. rewrite Nat2Z.inj_succ.
  match goal with |- Z.succ (Z.of_nat (length (waveform _ _ ?t))) = _ =>
    assert (Ht : transmitting t);
    [| assert (Hl : ticks_left t = 16 * (num_bytes + 1) - 2);
       [| destruct (waveform_length enc fuel t Ht ltac:(lia)) as (Hw & _);
          rewrite Hw, Hl; lia ] ]
  end.
  - unfold transmitting. fields.
    rewrite (uint8_small (num_bytes + 1)) by lia. repeat split; lia.
  - unfold ticks_left. fields.
    rewrite (uint8_small (num_bytes + 1)) by lia.
    destruct (clk s =? 0) eqn:E; [apply Z.eqb_eq in E; contradiction | lia].
Qed.

(** The masking expression of line 140 yields the bit of rank
    [bit_index] of the byte at [transmit_buffer_index], whatever the
    values of the two indices. *)
Lemma mask_is_testbit b k :
  (0 <? Z.land b (Z.shiftl 1 k)) = Z.testbit b k.
Proof.
  rewrite Z.shiftl_1_l.
  destruct (Z.lt_ge_cases k 0) as [Hneg | Hk].
  - rewrite (Z.pow_neg_r 2 k Hneg), Z.land_0_r, (Z.testbit_neg_r b k Hneg).
    reflexivity.
  - assert (Hland : Z.land b (2 ^ k) = if Z.testbit b k then 2 ^ k else 0).
    { apply Z.bits_inj'. intros n Hn.
      rewrite Z.land_spec, (Z.pow2_bits_eqb k n Hk).
      destruct (Z.testbit b k) eqn:Eb.
      - rewrite (Z.pow2_bits_eqb k n Hk).
        destruct (Z.eqb_spec k n) as [-> | Hne].
        + rewrite Eb. reflexivity.
        + apply andb_false_r.
      - rewrite Z.bits_0.
        destruct (Z.eqb_spec k n) as [<- | Hne].
        + rewrite Eb. reflexivity.
        + apply andb_false_r. }
    rewrite Hland. destruct (Z.testbit b k); [|reflexivity].
    apply Z.ltb_lt. apply Z.pow_pos_nonneg; lia.
Qed.

Lemma next_bit_of_reads_buffer s :
  next_bit_of s
  = bit_of (load (transmit_buffer s) (Z.to_nat (transmit_buffer_index s)))
           (bit_index s).
Proof.
  unfold next_bit_of, bit_of. rewrite mask_is_testbit. reflexivity.
Qed.

(** C2.  A run of the handler with [clk] set writes OUTTGL and nothing
    else to the port, clears [clk] and changes no other variable.  A run
    with [clk] clear reads bit [bit_index] of the byte at
    [transmit_buffer_index] of the buffer and writes OUTTGL exactly when
    that bit equals [prev], so that, when the packet goes on, the pin is
    toggled in that case and kept otherwise.  Hence every bit period of a
    transmitted packet has its two halves at different levels, in both
    conventions, and a packet of [num_bytes] bytes handed over in the idle
    state consists of [8 * (num_bytes + 1) - 1] such bit periods. *)
Theorem clock_edge_in_every_bit_period enc s fuel transmit_data num_bytes :
  let data_bit :=
    bit_of (load (transmit_buffer s) (Z.to_nat (transmit_buffer_index s)))
           (bit_index s) in
  (clk s <> 0 ->
   ISR_port_writes enc s = [OUTTGL]
   /\ ISR enc s =
      mkState (transmit_buffer s) (transmit_buffer_length s)
              (sending_in_progress s) (prev s) 0 (transmit_buffer_index s)
              (bit_index s) (negb (PA4 s)) (TCB_ENABLE s))
  /\ (clk s = 0 ->
      next_bit_of s = data_bit
      /\ (In OUTTGL (ISR_port_writes enc s) <-> data_bit = prev s)
      /\ (In OUTTGL (ISR_port_writes enc s) <-> next_bit_of s = prev s)
      /\ prev (ISR enc s) = data_bit
      /\ (last_bit_consumed s = false ->
          PA4 (ISR enc s)
          = if data_bit =? prev s then negb (PA4 s) else PA4 s)
      /\ (last_bit_consumed s = false ->
          PA4 (ISR enc s) = after_compare s))
  /\ PA4 (ISR enc s) = fold_left port_apply (ISR_port_writes enc s) (PA4 s)
  /\ (clk s <> 0 ->
      Forall has_mid_bit_transition
             (bit_periods
                (packet_levels fuel enc s transmit_data num_bytes)))
  /\ (sending_in_progress s = 0 ->
      clk s <> 0 ->
      transmit_buffer_index s = 0 ->
      bit_index s = 6 ->
      0 <= num_bytes <= 254 ->
      16 * (num_bytes + 1) - 2 <= Z.of_nat fuel ->
      Z.of_nat (length (bit_periods
                          (packet_levels fuel enc s transmit_data
                                         num_bytes)))
      = 8 * (num_bytes + 1) - 1).
Proof.
  intros data_bit.
  assert (Hbit : next_bit_of s = data_bit)
    by apply next_bit_of_reads_buffer.
  split; [|split; [|split; [|split]]].
  - intros Hc. split.
    + unfold ISR_port_writes.
      destruct (clk s =? 0) eqn:E;
        [apply Z.eqb_eq in E; contradiction | reflexivity].
    + apply (ISR_clock_edge enc s Hc).
  - intros Hc.
    assert (Hpin : last_bit_consumed s = false ->
                   PA4 (ISR enc s) = after_compare s).
    { intros E. apply last_bit_consumed_false in E.
      destruct E as [Hnz | [Hz Hlt]].
      - rewrite (ISR_data_edge_same_byte enc s Hc Hnz). reflexivity.
      - rewrite (ISR_data_edge_next_byte enc s Hc Hz Hlt). reflexivity. }
    split; [exact Hbit|].
    split; [rewrite <- Hbit; apply (toggle_written_iff enc s Hc)|].
    split; [apply (toggle_written_iff enc s Hc)|].
    split.
    { rewrite ISR_prev, Hc. exact Hbit. }
    split; [|exact Hpin].
    intros E. rewrite (Hpin E). unfold after_compare. rewrite Hbit.
    reflexivity.
  - apply ISR_pin_is_port_writes.
  - intros Hc. unfold packet_levels, line_levels.
    apply mid_bit_transitions_aux.
    unfold send_encoded_data.
    destruct (sending_in_progress s =? 0); exact Hc.
  - intros Hidle Hc Hi Hb Hn Hf.
    pose proof (packet_tick_count fuel enc s transmit_data num_bytes
                  Hidle Hc Hi Hb Hn Hf) as Hlen.
    rewrite bit_periods_length.
    assert (Hk : length (packet_levels fuel enc s transmit_data num_bytes)
                 = S (2 * Z.to_nat (8 * (num_bytes + 1) - 1))) by lia.
    rewrite Hk, Nat.div2_succ_double. lia.
Qed.

Lemma clock_edge_in_every_bit_period_witness :
  let s := first_packet_sent ENCODING_IEEE in
  let u := run 1 ENCODING_IEEE (first_packet_queued ENCODING_IEEE) in
  let data_bit := bit_of (load (transmit_buffer u) 0) 6 in
  (clk s <> 0 /\ clk u = 0 /\ last_bit_consumed u = false
   /\ transmit_buffer_index u = 0 /\ bit_index u = 6)
  /\ ISR_port_writes ENCODING_IEEE s = [OUTTGL]
  /\ next_bit_of u = data_bit
  /\ (In OUTTGL (ISR_port_writes ENCODING_IEEE u) <-> data_bit = prev u)
  /\ PA4 (ISR ENCODING_IEEE u)
     = (if data_bit =? prev u then negb (PA4 u) else PA4 u)
  /\ Forall has_mid_bit_transition
            (bit_periods (packet_levels 400 ENCODING_IEEE s
                                        transmit_example 18))
  /\ Z.of_nat (length (bit_periods (packet_levels 400 ENCODING_IEEE s
                                                  transmit_example 18)))
     = 8 * (18 + 1) - 1.
Proof.
  intros s u data_bit.
  assert (Hs : clk s <> 0) by (vm_compute; discriminate).
  assert (Hu : clk u = 0) by reflexivity.
  assert (Hl : last_bit_consumed u = false) by reflexivity.
  pose proof (clock_edge_in_every_bit_period ENCODING_IEEE s 400
                transmit_example 18) as (H1 & _ & _ & H4 & H5).
  pose proof (clock_edge_in_every_bit_period ENCODING_IEEE u 400
                transmit_example 18) as (_ & H2 & _).
  destruct (H2 Hu) as (Hb & Htgl & _ & _ & Hpin & _).
  split; [repeat split; try assumption; reflexivity|].
  split; [exact (proj1 (H1 Hs))|].
  split; [exact Hb|].
  split; [exact Htgl|].
  split; [exact (Hpin Hl)|].
  split; [exact (H4 Hs)|].
  apply (H5 eq_refl Hs eq_refl eq_refl); lia.
Defined.

(** C10.  [prev] has the seed of the convention in the initial state and
    no statement gives it that value again: a run of the handler leaves
    [prev] alone on a clock edge and stores the bit just read on a data
    edge, the completion branch included, and neither
    [send_encoded_data] nor the main loop writes it.  So after a packet,
    [prev] is the last bit read from the buffer, and the first data edge of
    the following packet toggles the pin exactly when its bit equals that
    one. *)
Theorem prev_carried_to_next_packet enc baud s transmit_data num_bytes
        calls us :
  clk s = 0 ->
  bit_index s = 0 ->
  transmit_buffer_length s <= uint8 (transmit_buffer_index s + 1) ->
  let s1 := ISR enc s in
  let s2 := snd (send_encoded_data s1 transmit_data num_bytes) in
  let s3 := set_TCB_ENABLE true s2 in
  let s4 := ISR enc s3 in
  prev (initial_state enc) = prev_init enc
  /\ (forall t, prev (ISR enc t)
                = if clk t =? 0 then next_bit_of t else prev t)
  /\ prev s1 = next_bit_of s
  /\ main_pass baud (mkMain s1 calls us) transmit_data num_bytes
     = Some (mkMain s3 (calls + guard_count baud)
                    (us + 250 * guard_count baud))
  /\ prev s3 = next_bit_of s
  /\ (clk s3 <> 0 /\ clk s4 = 0 /\ prev s4 = next_bit_of s)
  /\ (In OUTTGL (ISR_port_writes enc s4)
      <-> next_bit_of s4 = next_bit_of s).
Proof.
  intros Hc Hz Hle s1 s2 s3 s4.
  assert (H1 : s1 = mkState (transmit_buffer s) (transmit_buffer_length s) 0
                            (next_bit_of s) 1 0 6 (rest_level enc) false)
    by apply (ISR_data_edge_last_bit enc s Hc Hz Hle).
  assert (H2 : send_encoded_data s1 transmit_data num_bytes = (1, s2)).
  { subst s2. rewrite H1. reflexivity. }
  assert (H3 : prev s3 = next_bit_of s /\ clk s3 = 1).
  { subst s3 s2. rewrite H1. split; reflexivity. }
  destruct H3 as [Hp3 Hc3].
  assert (Hc3' : clk s3 <> 0) by (rewrite Hc3; discriminate).
  assert (H4 : prev s4 = next_bit_of s /\ clk s4 = 0).
  { subst s4. rewrite (ISR_clock_edge enc s3 Hc3'). split; [exact Hp3|].
    reflexivity. }
  destruct H4 as [Hp4 Hc4].
  split; [destruct enc; reflexivity|].
  split; [intros t; apply ISR_prev|].
  split; [rewrite H1; reflexivity|].
  split.
  { unfold main_pass. cbn [mcu delay_calls delayed_us]. rewrite H2.
    rewrite guard_and_enable_effect.
    - reflexivity.
    - cbn [mcu]. subst s2. rewrite H1. discriminate.
    - cbn [mcu]. subst s2. rewrite H1. reflexivity. }
  split; [exact Hp3|].
  split; [repeat split; assumption|].
  rewrite <- Hp4. apply (toggle_written_iff enc s4 Hc4).
Qed.

Lemma prev_carried_to_next_packet_witness :
  let s := first_packet_last_edge ENCODING_IEEE in
  let s1 := ISR ENCODING_IEEE s in
  let s3 := set_TCB_ENABLE true
              (snd (send_encoded_data s1 transmit_example 18)) in
  (clk s = 0 /\ bit_index s = 0 /\ transmit_buffer_index s = 18
   /\ transmit_buffer_length s = 19)
  /\ prev_init ENCODING_IEEE = 1
  /\ prev (ISR ENCODING_IEEE s3) = 0.
Proof.
  intros s s1 s3.
  split; [repeat split; reflexivity|].
  split; [reflexivity|].
  pose proof (prev_carried_to_next_packet ENCODING_IEEE BAUD_RATE s
                transmit_example 18 0 0 eq_refl eq_refl
                ltac:(vm_compute; discriminate))
    as (_ & _ & _ & _ & _ & (_ & _ & H) & _).
  exact (eq_trans H eq_refl).
Defined.

(** ** The bits the handler reads *)

Lemma land_single_bit b k :
  0 <= k ->
  Z.land b (Z.shiftl 1 k) = if Z.testbit b k then 2 ^ k else 0.
Proof.
  intros Hk. rewrite Z.shiftl_1_l.
  apply Z.bits_inj'. intros n Hn.
  rewrite Z.land_spec, (Z.pow2_bits_eqb k n Hk).
  destruct (Z.testbit b k) eqn:Eb.
  - rewrite (Z.pow2_bits_eqb k n Hk).
    destruct (Z.eqb_spec k n) as [-> | Hne].
    + rewrite Eb. reflexivity.
    + apply andb_false_r.
  - rewrite Z.bits_0.
    destruct (Z.eqb_spec k n) as [<- | Hne].
    + rewrite Eb. reflexivity.
    + apply andb_false_r.
Qed.

Lemma next_bit_of_is_bit s :
  0 <= bit_index s ->
  next_bit_of s
  = bit_of (load (transmit_buffer s) (Z.to_nat (transmit_buffer_index s)))
           (bit_index s).
Proof.
  intros Hk. unfold next_bit_of, bit_of.
  rewrite (land_single_bit _ _ Hk).
  destruct (Z.testbit _ (bit_index s)); [|reflexivity].
  assert (0 < 2 ^ bit_index s) by (apply Z.pow_pos_nonneg; lia).
  destruct (0 <? 2 ^ bit_index s) eqn:E; [reflexivity|].
  apply Z.ltb_ge in E. lia.
Qed.

Lemma bit_of_cases b k : bit_of b k = 0 \/ bit_of b k = 1.
Proof. unfold bit_of. destruct (Z.testbit b k); [right | left]; reflexivity. Qed.

Lemma next_bit_of_cases s : next_bit_of s = 0 \/ next_bit_of s = 1.
Proof.
  unfold next_bit_of.
  destruct (0 <? _); [right | left]; reflexivity.
Qed.

Lemma bytes_bits_length l : length (bytes_bits l) = (8 * length l)%nat.
Proof.
  unfold bytes_bits.
  induction l as [|b l IH]; [reflexivity|].
  cbn [flat_map]. rewrite length_app, IH. cbn [length byte_bits map]. lia.
Qed.

(** Bit [k] of byte [i] has rank [8 * i + (7 - k)]. *)
Lemma bytes_bits_nth l : forall i k,
  (i < length l)%nat -> 0 <= k <= 7 ->
  nth (8 * i + Z.to_nat (7 - k)) (bytes_bits l) 0 = bit_of (nth i l 0) k.
Proof.
  unfold bytes_bits.
  induction l as [|b l IH]; intros i k Hi Hk; [simpl in Hi; lia|].
  cbn [flat_map]. destruct i as [|i].
  - rewrite app_nth1 by (cbn [byte_bits map length]; lia).
    cbn [nth Nat.mul Nat.add].
    assert (Hc : k = 7 \/ k = 6 \/ k = 5 \/ k = 4 \/ k = 3 \/ k = 2
                 \/ k = 1 \/ k = 0) by lia.
    destruct Hc as [-> | [-> | [-> | [-> | [-> | [-> | [-> | ->]]]]]]];
      reflexivity.
  - rewrite app_nth2 by (cbn [byte_bits map length]; lia).
    cbn [byte_bits map length nth].
    replace (8 * S i + Z.to_nat (7 - k) - 8)%nat
      with (8 * i + Z.to_nat (7 - k))%nat by lia.
    apply IH; [simpl in Hi; lia | exact Hk].
Qed.

Lemma nth_firstn (l : list Z) : forall n i,
  (i < n)%nat -> nth i (firstn n l) 0 = nth i l 0.
Proof.
  induction l as [|a l IH]; intros n i H.
  - rewrite firstn_nil. reflexivity.
  - destruct n as [|n]; [lia|]. destruct i as [|i]; [reflexivity|].
    cbn [firstn nth]. apply IH. lia.
Qed.

Lemma skipn_cons_nth (l : list Z) : forall p,
  (p < length l)%nat -> skipn p l = nth p l 0 :: skipn (S p) l.
Proof.
  induction l as [|a l IH]; intros p H; [simpl in H; lia|].
  destruct p as [|p]; [reflexivity|].
  cbn [skipn nth]. apply IH. simpl in H. lia.
Qed.

(** The bit a data edge reads is the one at [bit_position] in the queued
    bytes. *)
Lemma next_bit_of_queued s :
  transmitting s ->
  (length (transmit_buffer s) = 255)%nat ->
  (bit_position s < length (bytes_bits (queued_bytes s)))%nat
  /\ next_bit_of s = nth (bit_position s) (bytes_bits (queued_bytes s)) 0.
Proof.
  unfold transmitting. intros (_ & Hi & Hl & Hb) Hlen.
  assert (Hq : length (queued_bytes s)
               = Z.to_nat (transmit_buffer_length s)).
  { unfold queued_bytes. rewrite length_firstn, Hlen. lia. }
  split.
  - rewrite bytes_bits_length, Hq. unfold bit_position. lia.
  - rewrite (next_bit_of_is_bit s ltac:(lia)).
    unfold bit_position.
    replace (Z.to_nat (8 * transmit_buffer_index s + (7 - bit_index s)))
      with (8 * Z.to_nat (transmit_buffer_index s)
            + Z.to_nat (7 - bit_index s))%nat by lia.
    rewrite bytes_bits_nth by (rewrite ?Hq; lia).
    unfold queued_bytes, load. rewrite nth_firstn by lia. reflexivity.
Qed.

(** ** The waveform, bit period by bit period *)

(** A data edge that does not end the packet, and the clock edge after
    it. *)
Lemma data_edge_then_clock_edge enc s :
  transmitting s ->
  clk s = 0 ->
  last_bit_consumed s = false ->
  let s1 := ISR enc s in
  let s2 := ISR enc s1 in
  TCB_ENABLE s1 = true
  /\ PA4 s1 = after_compare s
  /\ PA4 s2 = negb (after_compare s)
  /\ clk s2 = 0
  /\ prev s2 = next_bit_of s
  /\ transmitting s2
  /\ transmit_buffer s2 = transmit_buffer s
  /\ transmit_buffer_length s2 = transmit_buffer_length s
  /\ 8 * transmit_buffer_index s2 + (7 - bit_index s2)
     = 8 * transmit_buffer_index s + (7 - bit_index s) + 1.
Proof.
  intros Ht Hc E s1 s2.
  destruct Ht as (He & Hi & Hl & Hb).
  assert (H1 : exists i b,
             s1 = mkState (transmit_buffer s) (transmit_buffer_length s)
                          (sending_in_progress s) (next_bit_of s) 1 i b
                          (after_compare s) (TCB_ENABLE s)
             /\ 0 <= i < transmit_buffer_length s /\ 0 <= b <= 7
             /\ 8 * i + (7 - b)
                = 8 * transmit_buffer_index s + (7 - bit_index s) + 1).
  { apply last_bit_consumed_false in E. destruct E as [Hnz | [Hz Hlt]].
    - exists (transmit_buffer_index s), (uint8 (bit_index s - 1)).
      split; [apply (ISR_data_edge_same_byte enc s Hc Hnz)|].
      rewrite (uint8_small (bit_index s - 1)) by lia. lia.
    - exists (uint8 (transmit_buffer_index s + 1)), 7.
      split; [apply (ISR_data_edge_next_byte enc s Hc Hz Hlt)|].
      rewrite (uint8_small (transmit_buffer_index s + 1)) in * by lia.
      lia. }
  destruct H1 as (i & b & H1 & Hi' & Hb' & Hpos).
  assert (H2 : s2 = set_PA4 (negb (PA4 s1)) (set_clk 0 s1)).
  { apply ISR_clock_edge. rewrite H1. discriminate. }
  rewrite H2, H1. unfold set_PA4, set_clk, transmitting. fields.
  repeat split; try reflexivity; try assumption; lia.
Qed.

Lemma removelast_cons (x : Z) (l : list Z) :
  l <> [] -> removelast (x :: l) = x :: removelast l.
Proof. intros H. destruct l; [contradiction | reflexivity]. Qed.

Lemma waveform_disabled fuel enc s :
  TCB_ENABLE s = false -> waveform fuel enc s = [].
Proof. intros H. destruct fuel; simpl; [|rewrite H]; reflexivity. Qed.

Lemma after_compare_line_code s :
  prev s = 0 \/ prev s = 1 ->
  (after_compare s, negb (after_compare s))
  = line_code (polarity s) (next_bit_of s).
Proof.
  intros Hp. unfold after_compare, line_code, polarity.
  destruct (next_bit_of_cases s) as [-> | ->], Hp as [-> | ->],
    (PA4 s); reflexivity.
Qed.

Lemma polarity_after_two_ticks s s2 :
  prev s = 0 \/ prev s = 1 ->
  PA4 s2 = negb (after_compare s) ->
  prev s2 = next_bit_of s ->
  polarity s2 = polarity s.
Proof.
  intros Hp Hpin Hprev. unfold polarity. rewrite Hpin, Hprev.
  unfold after_compare.
  destruct (next_bit_of_cases s) as [-> | ->], Hp as [-> | ->],
    (PA4 s); reflexivity.
Qed.

(** From a state about to take a data edge, the bit periods still to come
    are the line codes of the queued bits from the one read next up to the
    last but one: the data edge of the last bit puts the line at rest and
    no clock edge follows it. *)
Lemma waveform_from_data_edge enc :
  forall (r fuel : nat) s,
    transmitting s ->
    clk s = 0 ->
    prev s = 0 \/ prev s = 1 ->
    length (transmit_buffer s) = 255%nat ->
    8 * (transmit_buffer_length s - 1 - transmit_buffer_index s)
    + bit_index s + 1 = Z.of_nat (S r) ->
    ticks_left s <= Z.of_nat fuel ->
    bit_periods (waveform fuel enc s)
    = map (line_code (polarity s))
          (removelast (skipn (bit_position s)
                             (bytes_bits (queued_bytes s)))).
Proof.
  induction r as [|r IH]; intros fuel s Ht Hc Hp Hlen Hr Hf.
  - (* the data edge of the last bit *)
    destruct (next_bit_of_queued s Ht Hlen) as [Hpos _].
    assert (Hlast : S (bit_position s)
                    = length (bytes_bits (queued_bytes s))).
    { rewrite bytes_bits_length. unfold queued_bytes.
      rewrite length_firstn, Hlen. unfold bit_position.
      destruct Ht as (_ & Hi & Hl & Hb). lia. }
    rewrite (skipn_cons_nth _ _ Hpos), Hlast, skipn_all. cbn [removelast map].
    assert (H1 : ticks_left s = 1).
    { unfold ticks_left. rewrite Hc. cbn [Z.eqb]. lia. }
    destruct fuel as [|f]; [simpl in Hf; lia|].
    cbn [waveform]. destruct Ht as (He & Hrest). rewrite He.
    rewrite (waveform_disabled f enc (ISR enc s)); [reflexivity|].
    rewrite (ISR_finish enc s (conj He Hrest) H1). reflexivity.
  - (* a data edge, a clock edge, and the rest *)
    assert (E : last_bit_consumed s = false).
    { unfold last_bit_consumed. apply andb_false_iff.
      destruct Ht as (_ & Hi & Hl & Hb).
      destruct (Z.eq_dec (bit_index s) 0) as [Hz | Hnz].
      - right. apply Z.leb_gt. rewrite uint8_small; lia.
      - left. apply Z.eqb_neq. exact Hnz. }
    destruct (data_edge_then_clock_edge enc s Ht Hc E)
      as (He1 & Hp1 & Hp2 & Hc2 & Hprev2 & Ht2 & Hb2 & Hl2 & Hpos2).
    destruct (next_bit_of_queued s Ht Hlen) as [Hpos Hbit].
    assert (Htl : ticks_left s = 2 * Z.of_nat (S (S r)) - 1).
    { unfold ticks_left. rewrite Hc. cbn [Z.eqb]. lia. }
    destruct fuel as [|[|f]]; [lia | lia |].
    pose proof Ht as (He & _).
    cbn [waveform]. rewrite He, He1. cbn [bit_periods].
    rewrite Hp1, Hp2, (after_compare_line_code s Hp).
    rewrite (IH f (ISR enc (ISR enc s)) Ht2 Hc2).
    + rewrite (polarity_after_two_ticks s _ Hp Hp2 Hprev2).
      assert (Hq : queued_bytes (ISR enc (ISR enc s)) = queued_bytes s)
        by (unfold queued_bytes; rewrite Hb2, Hl2; reflexivity).
      assert (Hbp : bit_position (ISR enc (ISR enc s))
                    = S (bit_position s)).
      { unfold bit_position. rewrite Hpos2.
        destruct Ht as (_ & Hi & Hl & Hb). lia. }
      rewrite Hq, Hbp, (skipn_cons_nth _ _ Hpos), <- Hbit.
      rewrite removelast_cons; [reflexivity|].
      intros Hnil. apply (f_equal (@length Z)) in Hnil.
      rewrite length_skipn, bytes_bits_length in Hnil.
      unfold queued_bytes in Hnil. rewrite length_firstn, Hlen in Hnil.
      unfold bit_position in Hnil.
      destruct Ht as (_ & Hi & Hl & Hb). cbn [length] in Hnil. lia.
    + rewrite Hprev2. apply next_bit_of_cases.
    + rewrite Hb2. exact Hlen.
    + rewrite Hl2. lia.
    + unfold ticks_left. rewrite Hc2, Hl2. cbn [Z.eqb]. lia.
Qed.

(** The bytes queued by an accepted call: the payload from index 0 on,
    then the byte that was in the buffer behind it. *)
Lemma queued_bytes_after_send s transmit_data num_bytes :
  sending_in_progress s = 0 ->
  0 <= num_bytes <= 254 ->
  length (transmit_buffer s) = 255%nat ->
  (Z.to_nat num_bytes <= length transmit_data)%nat ->
  queued_bytes (snd (send_encoded_data s transmit_data num_bytes))
  = firstn (Z.to_nat num_bytes) transmit_data
    ++ [load (transmit_buffer s) (Z.to_nat num_bytes)].
Proof.
  intros Hidle Hn Hlen Hd.
  rewrite (send_accepts s transmit_data num_bytes Hidle).
  unfold queued_bytes. cbn [snd]. fields.
  rewrite (uint8_small (num_bytes + 1)) by lia.
  set (n := Z.to_nat num_bytes).
  replace (Z.to_nat (num_bytes + 1)) with (S n) by lia.
  set (buf := copy_loop n 0 transmit_data (transmit_buffer s)).
  assert (Hbuf : length buf = 255%nat)
    by (unfold buf; rewrite copy_loop_length; exact Hlen).
  apply (nth_ext _ _ 0 0).
  - rewrite length_firstn, length_app, length_firstn. cbn [length]. lia.
  - intros j Hj. rewrite length_firstn, Hbuf in Hj.
    rewrite nth_firstn by lia.
    change (nth j buf 0) with (load buf j). unfold buf.
    rewrite copy_loop_load by lia.
    destruct (Nat.eq_dec j n) as [-> | Hne].
    + replace (Nat.leb 0 n && Nat.ltb n (0 + n))%bool with false
        by (symmetry; apply andb_false_iff; right; apply Nat.ltb_ge; lia).
      rewrite app_nth2 by (rewrite length_firstn; lia).
      rewrite length_firstn.
      replace (n - Nat.min n (length transmit_data))%nat with 0%nat by lia.
      reflexivity.
    + replace (Nat.leb 0 j && Nat.ltb j (0 + n))%bool with true
        by (symmetry; apply andb_true_iff;
            split; [apply Nat.leb_le | apply Nat.ltb_lt]; lia).
      rewrite app_nth1 by (rewrite length_firstn; lia).
      unfold load. rewrite nth_firstn by lia. reflexivity.
Qed.

(** The bit periods of a whole packet handed over in an idle state: the
    first one is made of the level at hand-over and its opposite, whatever
    the first queued bit is; the others are the line codes of the queued
    bits from the second to the last but one. *)
Lemma packet_bit_periods enc fuel s transmit_data num_bytes :
  sending_in_progress s = 0 ->
  clk s <> 0 ->
  transmit_buffer_index s = 0 ->
  bit_index s = 6 ->
  prev s = 0 \/ prev s = 1 ->
  length (transmit_buffer s) = 255%nat ->
  0 <= num_bytes <= 254 ->
  16 * (num_bytes + 1) - 2 <= Z.of_nat fuel ->
  bit_periods (packet_levels fuel enc s transmit_data num_bytes)
  = (PA4 s, negb (PA4 s))
    :: map (line_code (xorb (PA4 s) (prev s =? 1)))
           (removelast
              (tl (bytes_bits
                     (queued_bytes
                        (snd (send_encoded_data s transmit_data
                                                num_bytes)))))).
Proof.
  intros Hidle Hc Hi Hb Hp Hlen Hn Hf.
  rewrite (packet_levels_accepted fuel enc s transmit_data num_bytes Hidle).
  rewrite (send_accepts s transmit_data num_bytes Hidle). cbn [snd].
  set (t := mkState _ _ 1 _ _ _ _ _ true).
  assert (Hct : clk t <> 0) by exact Hc.
  destruct fuel as [|f]; [lia|].
  unfold line_levels. cbn [waveform].
  change (TCB_ENABLE t) with true. cbv iota.
  rewrite (ISR_clock_edge enc t Hct).
  set (t1 := set_PA4 (negb (PA4 t)) (set_clk 0 t)).
  change (PA4 t1) with (negb (PA4 s)). change (PA4 t) with (PA4 s).
  cbn [bit_periods]. f_equal.
  assert (Hu : uint8 (num_bytes + 1) = num_bytes + 1)
    by (apply uint8_small; lia).
  assert (Ht1 : transmitting t1).
  { unfold transmitting, t1, t, set_PA4, set_clk. fields.
    rewrite Hu, Hi, Hb. repeat split; lia. }
  rewrite (waveform_from_data_edge enc (Z.to_nat (8 * num_bytes + 6)) f t1
             Ht1).
  - replace (polarity t1) with (xorb (PA4 s) (prev s =? 1))
      by (unfold polarity, t1, t, set_PA4, set_clk; fields;
          rewrite negb_involutive; reflexivity).
    replace (bit_position t1) with 1%nat
      by (unfold bit_position, t1, t, set_PA4, set_clk; fields;
          rewrite Hi, Hb; reflexivity).
    reflexivity.
  - reflexivity.
  - exact Hp.
  - unfold t1, t, set_PA4, set_clk. fields.
    rewrite copy_loop_length. exact Hlen.
  - unfold t1, t, set_PA4, set_clk. fields. rewrite Hu, Hi, Hb. lia.
  - unfold ticks_left, t1, t, set_PA4, set_clk. fields.
    cbn [Z.eqb]. rewrite Hu, Hi, Hb. lia.
Qed.

Lemma bytes_bits_are_bits l : Forall (fun b => b = 0 \/ b = 1) (bytes_bits l).
Proof.
  unfold bytes_bits. induction l as [|x l IH]; [constructor|].
  cbn [flat_map]. apply Forall_app. split; [|exact IH].
  unfold byte_bits. apply Forall_forall. intros b Hb.
  apply in_map_iff in Hb. destruct Hb as (k & <- & _). apply bit_of_cases.
Qed.

Lemma Forall_tl (P : Z -> Prop) l : Forall P l -> Forall P (tl l).
Proof. intros H. destruct H; [constructor | assumption]. Qed.

Lemma Forall_removelast (P : Z -> Prop) l :
  Forall P l -> Forall P (removelast l).
Proof.
  induction 1 as [|x l Hx Hl IH]; [constructor|].
  destruct l as [|y l]; [constructor|].
  change (removelast (x :: y :: l)) with (x :: removelast (y :: l)).
  constructor; assumption.
Qed.

(** What a receiver reads from a packet sent by the G.E. Thomas build when
    the line is low and [prev] is 0 at hand-over, as at program start: a 0
    for the first bit period, then the queued bits from the second to the
    last but one. *)
Lemma thomas_packet_decoding fuel s transmit_data num_bytes :
  sending_in_progress s = 0 ->
  clk s <> 0 ->
  transmit_buffer_index s = 0 ->
  bit_index s = 6 ->
  prev s = 0 ->
  PA4 s = false ->
  length (transmit_buffer s) = 255%nat ->
  0 <= num_bytes <= 254 ->
  16 * (num_bytes + 1) - 2 <= Z.of_nat fuel ->
  decode_levels ENCODING_G_E_THOMAS
    (packet_levels fuel ENCODING_G_E_THOMAS s transmit_data num_bytes)
  = Some 0
    :: map Some
         (removelast
            (tl (bytes_bits
                   (queued_bytes
                      (snd (send_encoded_data s transmit_data
                                              num_bytes)))))).
Proof.
  intros Hidle Hc Hi Hb Hp Hpin Hlen Hn Hf.
  unfold decode_levels.
  rewrite (packet_bit_periods ENCODING_G_E_THOMAS fuel s transmit_data
             num_bytes Hidle Hc Hi Hb (or_introl Hp) Hlen Hn Hf).
  rewrite Hpin, Hp. cbn [map decode_period negb]. f_equal.
  rewrite map_map. apply map_ext_in. intros b Hin.
  pose proof (Forall_removelast _ _
                (Forall_tl _ _ (bytes_bits_are_bits
                   (queued_bytes (snd (send_encoded_data s transmit_data
                                                         num_bytes))))))
    as Hbits.
  rewrite Forall_forall in Hbits.
  destruct (Hbits b Hin) as [-> | ->]; reflexivity.
Qed.

(** The same for the IEEE build, line high and [prev] at 1 at hand-over:
    read with the IEEE rule, every bit after the first comes out
    complemented. *)
Lemma ieee_packet_decoding fuel s transmit_data num_bytes :
  sending_in_progress s = 0 ->
  clk s <> 0 ->
  transmit_buffer_index s = 0 ->
  bit_index s = 6 ->
  prev s = 1 ->
  PA4 s = true ->
  length (transmit_buffer s) = 255%nat ->
  0 <= num_bytes <= 254 ->
  16 * (num_bytes + 1) - 2 <= Z.of_nat fuel ->
  decode_levels ENCODING_IEEE
    (packet_levels fuel ENCODING_IEEE s transmit_data num_bytes)
  = Some 0
    :: map (fun b => Some (1 - b))
         (removelast
            (tl (bytes_bits
                   (queued_bytes
                      (snd (send_encoded_data s transmit_data
                                              num_bytes)))))).
Proof.
  intros Hidle Hc Hi Hb Hp Hpin Hlen Hn Hf.
  unfold decode_levels.
  rewrite (packet_bit_periods ENCODING_IEEE fuel s transmit_data
             num_bytes Hidle Hc Hi Hb (or_intror Hp) Hlen Hn Hf).
  rewrite Hpin, Hp. cbn [map decode_period negb]. f_equal.
  rewrite map_map. apply map_ext_in. intros b Hin.
  pose proof (Forall_removelast _ _
                (Forall_tl _ _ (bytes_bits_are_bits
                   (queued_bytes (snd (send_encoded_data s transmit_data
                                                         num_bytes))))))
    as Hbits.
  rewrite Forall_forall in Hbits.
  destruct (Hbits b Hin) as [-> | ->]; reflexivity.
Qed.

Lemma same_bits_eq a : forall b, same_bits a b = true <-> a = b.
Proof.
  induction a as [|x a IH]; intros [|y b]; cbn [same_bits];
    try (split; [discriminate | intros H; discriminate H]).
  - split; reflexivity.
  - rewrite andb_true_iff, IH. split.
    + intros [Hxy ->]. f_equal.
      destruct x as [x|], y as [y|]; cbn [same_bit] in Hxy;
        try discriminate; [|reflexivity].
      apply Z.eqb_eq in Hxy. rewrite Hxy. reflexivity.
    + intros H. injection H as -> ->. split; [|reflexivity].
      destruct y as [y|]; cbn [same_bit]; [apply Z.eqb_refl | reflexivity].
Qed.

(** In the G.E. Thomas build, line low and [prev] at 0 at hand-over, a
    payload whose first byte has its top bit clear is read back whole by
    the receiver, followed by seven bits of the byte that lay behind it in
    the buffer. *)
Lemma thomas_payload_recovered fuel s transmit_data num_bytes :
  sending_in_progress s = 0 ->
  clk s <> 0 ->
  transmit_buffer_index s = 0 ->
  bit_index s = 6 ->
  prev s = 0 ->
  PA4 s = false ->
  length (transmit_buffer s) = 255%nat ->
  1 <= num_bytes <= 254 ->
  length transmit_data = Z.to_nat num_bytes ->
  bit_of (load transmit_data 0) 7 = 0 ->
  16 * (num_bytes + 1) - 2 <= Z.of_nat fuel ->
  decode_levels ENCODING_G_E_THOMAS
    (packet_levels fuel ENCODING_G_E_THOMAS s transmit_data num_bytes)
  = map Some (bytes_bits transmit_data)
    ++ map Some (removelast
                   (byte_bits (load (transmit_buffer s)
                                    (Z.to_nat num_bytes)))).
Proof.
  intros Hidle Hc Hi Hb Hp Hpin Hlen Hn Hd Htop Hf.
  rewrite (thomas_packet_decoding fuel s transmit_data num_bytes
             Hidle Hc Hi Hb Hp Hpin Hlen ltac:(lia) Hf).
  rewrite (queued_bytes_after_send s transmit_data num_bytes Hidle
             ltac:(lia) Hlen ltac:(lia)).
  rewrite <- Hd, firstn_all.
  destruct transmit_data as [|a d]; [simpl in Hd; lia|].
  unfold load in Htop. cbn [nth] in Htop.
  set (x := load (transmit_buffer s) (Z.to_nat num_bytes)).
  unfold bytes_bits. rewrite flat_map_app. cbn [flat_map].
  rewrite app_nil_r.
  change (byte_bits a) with (bit_of a 7 :: map (bit_of a) [6; 5; 4; 3; 2; 1; 0]).
  rewrite Htop. cbn [app tl].
  rewrite <- map_app. change (Some 0 :: map Some ?l) with (map Some (0 :: l)).
  f_equal.
  set (rest := map (bit_of a) [6; 5; 4; 3; 2; 1; 0] ++ flat_map byte_bits d).
  rewrite !removelast_app by (unfold byte_bits; discriminate).
  reflexivity.
Qed.

(** The round trip as the design document has it, framing byte first,
    does not hold for the one-byte packet 0x80 handed over in the idle
    state that follows the example packet. *)
Lemma round_trip_not_as_documented :
  ~ round_trip_as_documented 30 ENCODING_G_E_THOMAS
      (first_packet_sent ENCODING_G_E_THOMAS) [128] 1.
Proof.
  unfold round_trip_as_documented. intros H.
  apply (f_equal (@length (option Z))) in H.
  vm_compute in H. discriminate H.
Qed.

(** C1 fails on the code.  Default build, program start, a one-byte packet
    0x80: the call puts the byte at index 0, over the framing byte, and
    queues it with the zero byte behind it; the fifteen bit periods on the
    line all read 0, which is neither the framing byte followed by the
    payload nor the payload.  The same packet handed over in the idle
    state that follows the example packet is queued with the 'e' of that
    packet behind it and reads as eight zeros and seven bits of the 'e'.
    IEEE build, program start, the example
    packet: apart from the first bit, what the receiver reads is the
    complement of the queued bits. *)
Theorem round_trip_fails :
  let s := initial_state ENCODING_G_E_THOMAS in
  let decoded :=
    decode_levels ENCODING_G_E_THOMAS
      (packet_levels 30 ENCODING_G_E_THOMAS s [128] 1) in
  let s' := first_packet_sent ENCODING_G_E_THOMAS in
  let decoded' :=
    decode_levels ENCODING_G_E_THOMAS
      (packet_levels 30 ENCODING_G_E_THOMAS s' [128] 1) in
  let t := initial_state ENCODING_IEEE in
  let decoded_ieee :=
    decode_levels ENCODING_IEEE
      (packet_levels 302 ENCODING_IEEE t transmit_example
                     TRANSMIT_EXAMPLE_SIZE) in
  queued_bytes (snd (send_encoded_data s [128] 1)) = [128; 0]
  /\ decoded = repeat (Some 0) 15
  /\ same_bits decoded (map Some (bytes_bits [START_BYTE; 128])) = false
  /\ same_bits (firstn 8 decoded) (map Some (bytes_bits [128])) = false
  /\ idle ENCODING_G_E_THOMAS s'
  /\ queued_bytes (snd (send_encoded_data s' [128] 1)) = [128; 101]
  /\ decoded' = map Some [0; 0; 0; 0; 0; 0; 0; 0; 0; 1; 1; 0; 0; 1; 0]
  /\ same_bits decoded' (map Some (bytes_bits [START_BYTE; 128])) = false
  /\ same_bits (firstn 8 decoded') (map Some (bytes_bits [128])) = false
  /\ same_bits (firstn 144 decoded_ieee)
               (map Some (bytes_bits transmit_example)) = false
  /\ firstn 144 decoded_ieee
     = Some 0 :: map (fun b => Some (1 - b))
                     (tl (bytes_bits transmit_example)).
Proof.
  vm_compute. repeat split; reflexivity.
Qed.

(** ** Further properties of the handler *)

Lemma ISR_buffer enc s :
  transmit_buffer (ISR enc s) = transmit_buffer s
  /\ transmit_buffer_length (ISR enc s) = transmit_buffer_length s.
Proof.
  destruct (Z.eq_dec (clk s) 0) as [Hc | Hc].
  - destruct (last_bit_consumed s) eqn:E.
    + apply last_bit_consumed_spec in E. destruct E as [Hz Hle].
      rewrite (ISR_data_edge_last_bit enc s Hc Hz Hle). split; reflexivity.
    + apply last_bit_consumed_false in E. destruct E as [Hnz | [Hz Hlt]].
      * rewrite (ISR_data_edge_same_byte enc s Hc Hnz). split; reflexivity.
      * rewrite (ISR_data_edge_next_byte enc s Hc Hz Hlt). split; reflexivity.
  - rewrite (ISR_clock_edge enc s Hc). split; reflexivity.
Qed.

Lemma ISR_flags enc s :
  (sending_in_progress (ISR enc s) = sending_in_progress s
   /\ TCB_ENABLE (ISR enc s) = TCB_ENABLE s)
  \/ (clk s = 0 /\ last_bit_consumed s = true
      /\ sending_in_progress (ISR enc s) = 0
      /\ TCB_ENABLE (ISR enc s) = false).
Proof.
  destruct (Z.eq_dec (clk s) 0) as [Hc | Hc].
  - destruct (last_bit_consumed s) eqn:E.
    + right. pose proof E as E'.
      apply last_bit_consumed_spec in E'. destruct E' as [Hz Hle].
      rewrite (ISR_data_edge_last_bit enc s Hc Hz Hle).
      repeat split; assumption.
    + left. apply last_bit_consumed_false in E.
      destruct E as [Hnz | [Hz Hlt]].
      * rewrite (ISR_data_edge_same_byte enc s Hc Hnz). split; reflexivity.
      * rewrite (ISR_data_edge_next_byte enc s Hc Hz Hlt). split; reflexivity.
  - left. rewrite (ISR_clock_edge enc s Hc). split; reflexivity.
Qed.

(** X1.  The handler only reads the buffer: one run leaves the bytes and
    the length as they were; it never sets [sending_in_progress] and never
    sets the ENABLE bit, and it clears both only in the run that reads the
    last queued bit. *)
Theorem handler_frame enc s :
  transmit_buffer (ISR enc s) = transmit_buffer s
  /\ transmit_buffer_length (ISR enc s) = transmit_buffer_length s
  /\ ((sending_in_progress (ISR enc s) = sending_in_progress s
       /\ TCB_ENABLE (ISR enc s) = TCB_ENABLE s)
      \/ (clk s = 0 /\ last_bit_consumed s = true
          /\ sending_in_progress (ISR enc s) = 0
          /\ TCB_ENABLE (ISR enc s) = false)).
Proof.
  destruct (ISR_buffer enc s) as [Hb Hl].
  split; [exact Hb|]. split; [exact Hl|]. apply ISR_flags.
Qed.

(** ** The timer always stops *)

Lemma ticks_to_stop_positive s : in_range s -> 1 <= ticks_to_stop s.
Proof.
  unfold in_range, ticks_to_stop. intros (Hi & Hl & Hb).
  destruct (clk s =? 0); lia.
Qed.

Lemma ISR_progress_any enc s :
  in_range s -> TCB_ENABLE s = true -> 1 < ticks_to_stop s ->
  in_range (ISR enc s)
  /\ TCB_ENABLE (ISR enc s) = true
  /\ ticks_to_stop (ISR enc s) = ticks_to_stop s - 1.
Proof.
  unfold in_range, ticks_to_stop. intros (Hi & Hl & Hb) He Ht.
  destruct (clk s =? 0) eqn:Ec.
  - apply Z.eqb_eq in Ec.
    destruct (Z.eq_dec (bit_index s) 0) as [Hz | Hnz].
    + assert (Hlt : transmit_buffer_index s + 1 < transmit_buffer_length s)
        by lia.
      assert (Hu : uint8 (transmit_buffer_index s + 1)
                   = transmit_buffer_index s + 1)
        by (apply uint8_small; lia).
      rewrite (ISR_data_edge_next_byte enc s Ec Hz ltac:(lia)). fields.
      rewrite Hu. repeat split; try assumption; lia.
    + assert (Hu : uint8 (bit_index s - 1) = bit_index s - 1)
        by (apply uint8_small; lia).
      rewrite (ISR_data_edge_same_byte enc s Ec Hnz). fields.
      rewrite Hu. repeat split; try assumption; lia.
  - apply Z.eqb_neq in Ec.
    rewrite (ISR_clock_edge enc s Ec). unfold set_PA4, set_clk. fields.
    change (0 =? 0) with true. cbv iota.
    repeat split; try assumption; lia.
Qed.

Lemma ISR_stop_any enc s :
  in_range s -> ticks_to_stop s = 1 -> idle enc (ISR enc s).
Proof.
  unfold in_range, ticks_to_stop. intros (Hi & Hl & Hb) Ht.
  destruct (clk s =? 0) eqn:Ec; [|lia].
  apply Z.eqb_eq in Ec.
  assert (Hz : bit_index s = 0) by lia.
  assert (Hle : transmit_buffer_length s
                <= uint8 (transmit_buffer_index s + 1)).
  { rewrite uint8_small; lia. }
  rewrite (ISR_data_edge_last_bit enc s Ec Hz Hle).
  unfold idle. fields. repeat split; reflexivity.
Qed.

Lemma run_stops enc :
  forall fuel s,
    in_range s -> TCB_ENABLE s = true ->
    ticks_to_stop s <= Z.of_nat fuel ->
    idle enc (run fuel enc s)
    /\ Z.of_nat (length (waveform fuel enc s)) = ticks_to_stop s.
Proof.
  induction fuel as [|f IH]; intros s Hr He Hf.
  - pose proof (ticks_to_stop_positive s Hr). lia.
  - pose proof (ticks_to_stop_positive s Hr) as Hpos.
    cbn [run waveform]. rewrite He.
    destruct (Z.eq_dec (ticks_to_stop s) 1) as [H1 | H1].
    + pose proof (ISR_stop_any enc s Hr H1) as Hidle.
      assert (Hoff : TCB_ENABLE (ISR enc s) = false)
        by (destruct Hidle as (_ & H & _); exact H).
      rewrite (waveform_disabled f enc _ Hoff).
      destruct f; cbn [run length]; rewrite ?Hoff; (split; [exact Hidle | lia]).
    + destruct (ISR_progress_any enc s Hr He ltac:(lia)) as (Hr' & He' & Hd).
      destruct (IH (ISR enc s) Hr' He' ltac:(lia)) as (Hidle & Hlen).
      split; [exact Hidle|]. cbn [length]. lia.
Qed.

Lemma run_buffer enc : forall fuel s,
  transmit_buffer (run fuel enc s) = transmit_buffer s
  /\ transmit_buffer_length (run fuel enc s) = transmit_buffer_length s.
Proof.
  induction fuel as [|f IH]; intros s; cbn [run]; [split; reflexivity|].
  destruct (TCB_ENABLE s); [|split; reflexivity].
  destruct (IH (ISR enc s)) as [Hb Hl].
  destruct (ISR_buffer enc s) as [Hb' Hl'].
  split; congruence.
Qed.

(** X2.  The handler always stops the timer.  From any state with the
    timer enabled, the byte index inside the buffer and the bit index
    inside a byte, whatever the flag, the length and the contents of the
    buffer are, the timer is disabled after a number of ticks that depends
    on the indices and the length only, at most 4080; the handler leaves
    the idle state behind (flag clear, indices at 0 and 6, line at rest)
    and the buffer as it was. *)
Theorem timer_always_stops enc s :
  in_range s ->
  TCB_ENABLE s = true ->
  1 <= ticks_to_stop s <= 4080
  /\ Z.of_nat (length (waveform 4080 enc s)) = ticks_to_stop s
  /\ idle enc (run 4080 enc s)
  /\ transmit_buffer (run 4080 enc s) = transmit_buffer s
  /\ transmit_buffer_length (run 4080 enc s) = transmit_buffer_length s.
Proof.
  intros Hr He.
  assert (Hbound : ticks_to_stop s <= 4080).
  { unfold in_range in Hr. unfold ticks_to_stop.
    destruct Hr as (Hi & Hl & Hb). destruct (clk s =? 0); lia. }
  pose proof (ticks_to_stop_positive s Hr) as Hpos.
  destruct (run_stops enc 4080 s Hr He ltac:(lia)) as (Hidle & Hlen).
  destruct (run_buffer enc 4080 s) as (Hb & Hl).
  repeat split; try assumption; apply Hidle.
Qed.

Lemma timer_always_stops_witness :
  let s := initial_state ENCODING_IEEE in
  TCB_ENABLE s = true
  /\ ticks_to_stop s = 14
  /\ Z.of_nat (length (waveform 4080 ENCODING_IEEE s)) = 14
  /\ idle ENCODING_IEEE (run 4080 ENCODING_IEEE s).
Proof.
  intros s.
  assert (Hr : in_range s) by (vm_compute; repeat split; discriminate).
  pose proof (timer_always_stops ENCODING_IEEE s Hr eq_refl)
    as (_ & Hlen & Hidle & _).
  split; [reflexivity|]. split; [reflexivity|].
  split; [exact Hlen | exact Hidle].
Defined.

(** ** A transmission from hand-over to the end *)

Lemma run_partial enc : forall (k : nat) s,
  transmitting s ->
  Z.of_nat k < ticks_left s ->
  transmitting (run k enc s)
  /\ ticks_left (run k enc s) = ticks_left s - Z.of_nat k
  /\ sending_in_progress (run k enc s) = sending_in_progress s.
Proof.
  induction k as [|k IH]; intros s Ht Hk.
  - cbn [run]. repeat split; try apply Ht. lia.
  - cbn [run]. pose proof Ht as (He & _). rewrite He.
    destruct (ISR_progress enc s Ht ltac:(lia)) as (Ht' & Hd & _ & _ & Hs).
    destruct (IH (ISR enc s) Ht' ltac:(lia)) as (Ht'' & Hd' & Hs').
    split; [exact Ht''|]. split; [lia | congruence].
Qed.

Lemma run_prev enc : forall fuel s,
  transmitting s ->
  ticks_left s <= Z.of_nat fuel ->
  prev (run fuel enc s)
  = bit_of (load (transmit_buffer s)
                 (Z.to_nat (transmit_buffer_length s - 1))) 0.
Proof.
  induction fuel as [|f IH]; intros s Ht Hf.
  - pose proof (ticks_left_positive s Ht). lia.
  - pose proof (ticks_left_positive s Ht) as Hpos.
    cbn [run]. pose proof Ht as (He & Hi & Hl & Hb). rewrite He.
    destruct (Z.eq_dec (ticks_left s) 1) as [H1 | H1].
    + assert (Hlast : bit_index s = 0
                      /\ transmit_buffer_index s
                         = transmit_buffer_length s - 1).
      { unfold ticks_left in H1. destruct (clk s =? 0); lia. }
      destruct Hlast as [Hz Hidx].
      rewrite (ISR_finish enc s Ht H1).
      assert (Hp : next_bit_of s
                   = bit_of (load (transmit_buffer s)
                                  (Z.to_nat (transmit_buffer_length s - 1)))
                            0).
      { rewrite (next_bit_of_is_bit s ltac:(lia)), Hz, Hidx. reflexivity. }
      destruct f; cbn [run]; fields; exact Hp.
    + destruct (ISR_progress enc s Ht ltac:(lia))
        as (Ht' & Hd & Hbuf & Hlen & _).
      rewrite (IH (ISR enc s) Ht' ltac:(lia)), Hbuf, Hlen. reflexivity.
Qed.

(** The state in which the ticks of a packet start. *)
Lemma handed_over s transmit_data num_bytes :
  sending_in_progress s = 0 ->
  clk s <> 0 ->
  transmit_buffer_index s = 0 ->
  bit_index s = 6 ->
  0 <= num_bytes <= 254 ->
  let t := set_TCB_ENABLE true
             (snd (send_encoded_data s transmit_data num_bytes)) in
  transmitting t
  /\ ticks_left t = 16 * (num_bytes + 1) - 2
  /\ sending_in_progress t = 1
  /\ transmit_buffer t
     = copy_loop (Z.to_nat num_bytes) 0 transmit_data (transmit_buffer s)
  /\ transmit_buffer_length t = num_bytes + 1.
Proof.
  intros Hidle Hc Hi Hb Hn t. subst t.
  rewrite (send_accepts s transmit_data num_bytes Hidle).
  unfold transmitting, ticks_left, set_TCB_ENABLE. cbn [snd]. fields.
  rewrite (uint8_small (num_bytes + 1)) by lia. rewrite Hi, Hb.
  destruct (clk s =? 0) eqn:E; [apply Z.eqb_eq in E; contradiction|].
  repeat split; lia.
Qed.

(** X3.  A packet of [num_bytes] bytes handed over in the idle state keeps
    the handler at work for exactly [16 * (num_bytes + 1) - 2] ticks: after
    any smaller number of ticks [sending_in_progress] is still set and the
    timer still enabled, so [send_encoded_data] refuses every call made in
    between. *)
Theorem transmission_in_progress enc s transmit_data num_bytes (k : nat)
        other_data other_bytes :
  sending_in_progress s = 0 ->
  clk s <> 0 ->
  transmit_buffer_index s = 0 ->
  bit_index s = 6 ->
  0 <= num_bytes <= 254 ->
  Z.of_nat k < 16 * (num_bytes + 1) - 2 ->
  let t := transmit k enc s transmit_data num_bytes in
  sending_in_progress t = 1
  /\ TCB_ENABLE t = true
  /\ send_encoded_data t other_data other_bytes = (0, t).
Proof.
  intros Hidle Hc Hi Hb Hn Hk t. subst t. unfold transmit.
  destruct (handed_over s transmit_data num_bytes Hidle Hc Hi Hb Hn)
    as (Ht & Hl & Hs & _).
  destruct (run_partial enc k _ Ht ltac:(lia)) as (Ht' & _ & Hs').
  rewrite Hs in Hs'.
  split; [exact Hs'|]. split; [apply Ht'|].
  apply send_refuses. rewrite Hs'. discriminate.
Qed.

Lemma transmission_in_progress_witness :
  let t := transmit 301 ENCODING_G_E_THOMAS
                    (first_packet_sent ENCODING_G_E_THOMAS)
                    transmit_example 18 in
  sending_in_progress t = 1
  /\ TCB_ENABLE t = true
  /\ send_encoded_data t [1] 1 = (0, t).
Proof.
  apply (transmission_in_progress ENCODING_G_E_THOMAS
           (first_packet_sent ENCODING_G_E_THOMAS) transmit_example 18
           301 [1] 1).
  - reflexivity.
  - vm_compute. discriminate.
  - reflexivity.
  - reflexivity.
  - lia.
  - lia.
Defined.

Lemma transmit_final enc s transmit_data num_bytes
        (fuel : nat) :
  sending_in_progress s = 0 ->
  clk s <> 0 ->
  transmit_buffer_index s = 0 ->
  bit_index s = 6 ->
  length (transmit_buffer s) = 255%nat ->
  0 <= num_bytes <= 254 ->
  16 * (num_bytes + 1) - 2 <= Z.of_nat fuel ->
  transmit fuel enc s transmit_data num_bytes
  = mkState (copy_loop (Z.to_nat num_bytes) 0 transmit_data
                       (transmit_buffer s))
            (num_bytes + 1) 0
            (bit_of (load (transmit_buffer s) (Z.to_nat num_bytes)) 0)
            1 0 6 (rest_level enc) false.
Proof.
  intros Hidle Hc Hi Hb Hlen Hn Hf. unfold transmit.
  destruct (handed_over s transmit_data num_bytes Hidle Hc Hi Hb Hn)
    as (Ht & Hl & _ & Hbuf & Hlength).
  set (t := set_TCB_ENABLE true
              (snd (send_encoded_data s transmit_data num_bytes))) in *.
  destruct (waveform_length enc fuel t Ht ltac:(lia))
    as (_ & Hidle' & Hbuf' & Hlength').
  pose proof (run_prev enc fuel t Ht ltac:(lia)) as Hprev.
  rewrite Hbuf, Hlength in Hprev.
  replace (Z.to_nat (num_bytes + 1 - 1)) with (Z.to_nat num_bytes)
    in Hprev by lia.
  rewrite copy_loop_load in Hprev by lia.
  replace (Nat.leb 0 (Z.to_nat num_bytes)
           && Nat.ltb (Z.to_nat num_bytes) (0 + Z.to_nat num_bytes))%bool
    with false in Hprev
    by (symmetry; apply andb_false_iff; right; apply Nat.ltb_ge; lia).
  rewrite Hbuf in Hbuf'. rewrite Hlength in Hlength'.
  destruct Hidle' as (H1 & H2 & H3 & H4 & H5 & H6).
  destruct (run fuel enc t) as [b l sp p c i bi pin en].
  fields. subst. reflexivity.
Qed.

(** X4.  Once those ticks have passed, the state is known in full: the
    buffer holds the payload from index 0 on and its other bytes as before
    the call, the length is the byte count plus one, the flag is clear,
    the byte index is 0, the bit index 6, [clk] is 1, the line is at the
    rest level of the convention, the timer is disabled, and [prev] is bit
    0 of the byte that lay behind the payload. *)
Theorem transmission_final_state enc s transmit_data num_bytes
        (fuel : nat) :
  sending_in_progress s = 0 ->
  clk s <> 0 ->
  transmit_buffer_index s = 0 ->
  bit_index s = 6 ->
  length (transmit_buffer s) = 255%nat ->
  0 <= num_bytes <= 254 ->
  16 * (num_bytes + 1) - 2 <= Z.of_nat fuel ->
  transmit fuel enc s transmit_data num_bytes
  = mkState (copy_loop (Z.to_nat num_bytes) 0 transmit_data
                       (transmit_buffer s))
            (num_bytes + 1) 0
            (bit_of (load (transmit_buffer s) (Z.to_nat num_bytes)) 0)
            1 0 6 (rest_level enc) false.
Proof. apply transmit_final. Qed.

Lemma transmission_final_state_witness :
  transmit 302 ENCODING_IEEE (initial_state ENCODING_IEEE)
           transmit_example 18
  = mkState (copy_loop 18 0 transmit_example
                       (transmit_buffer (initial_state ENCODING_IEEE)))
            19 0 0 1 0 6 true false.
Proof.
  apply (transmission_final_state ENCODING_IEEE
           (initial_state ENCODING_IEEE) transmit_example 18 302).
  - reflexivity.
  - vm_compute. discriminate.
  - reflexivity.
  - reflexivity.
  - reflexivity.
  - lia.
  - lia.
Defined.

(** ** What the receiver reads, in both conventions *)

Lemma decoding_from_rest enc fuel s transmit_data num_bytes :
  sending_in_progress s = 0 ->
  clk s <> 0 ->
  transmit_buffer_index s = 0 ->
  bit_index s = 6 ->
  prev s = 0 \/ prev s = 1 ->
  PA4 s = rest_level enc ->
  length (transmit_buffer s) = 255%nat ->
  0 <= num_bytes <= 254 ->
  16 * (num_bytes + 1) - 2 <= Z.of_nat fuel ->
  decode_levels enc (packet_levels fuel enc s transmit_data num_bytes)
  = Some 0
    :: map (fun b => Some (Z.lxor b (prev s)))
         (removelast
            (tl (bytes_bits
                   (queued_bytes
                      (snd (send_encoded_data s transmit_data
                                              num_bytes)))))).
Proof.
  intros Hidle Hc Hi Hb Hp Hpin Hlen Hn Hf.
  unfold decode_levels.
  rewrite (packet_bit_periods enc fuel s transmit_data num_bytes
             Hidle Hc Hi Hb Hp Hlen Hn Hf).
  rewrite Hpin. cbn [map]. f_equal.
  - destruct enc; reflexivity.
  - rewrite map_map. apply map_ext_in. intros b Hin.
    pose proof (Forall_removelast _ _
                  (Forall_tl _ _ (bytes_bits_are_bits
                     (queued_bytes (snd (send_encoded_data s transmit_data
                                                           num_bytes))))))
      as Hbits.
    rewrite Forall_forall in Hbits.
    destruct (Hbits b Hin) as [-> | ->], Hp as [-> | ->], enc; reflexivity.
Qed.

(** X5.  What a receiver reads from a packet handed over with the line at
    the rest level of the convention, in either convention and with the
    rule of that convention: a 0 for the first bit period, whatever the
    first queued bit is, then every queued bit from the second to the last
    but one, each exclusive-or'ed with the value [prev] had at hand-over.
    So the bits come out as queued when [prev] was 0 and complemented when
    it was 1. *)
Theorem packet_decoding enc fuel s transmit_data num_bytes :
  sending_in_progress s = 0 ->
  clk s <> 0 ->
  transmit_buffer_index s = 0 ->
  bit_index s = 6 ->
  prev s = 0 \/ prev s = 1 ->
  PA4 s = rest_level enc ->
  length (transmit_buffer s) = 255%nat ->
  0 <= num_bytes <= 254 ->
  (Z.to_nat num_bytes <= length transmit_data)%nat ->
  16 * (num_bytes + 1) - 2 <= Z.of_nat fuel ->
  decode_levels enc (packet_levels fuel enc s transmit_data num_bytes)
  = Some 0
    :: map (fun b => Some (Z.lxor b (prev s)))
         (removelast
            (tl (bytes_bits
                   (firstn (Z.to_nat num_bytes) transmit_data
                    ++ [load (transmit_buffer s) (Z.to_nat num_bytes)])))).
Proof.
  intros Hidle Hc Hi Hb Hp Hpin Hlen Hn Hd Hf.
  rewrite (decoding_from_rest enc fuel s transmit_data num_bytes
             Hidle Hc Hi Hb Hp Hpin Hlen Hn Hf).
  rewrite (queued_bytes_after_send s transmit_data num_bytes Hidle Hn Hlen
             Hd).
  reflexivity.
Qed.

Lemma packet_decoding_witness :
  decode_levels ENCODING_IEEE
    (packet_levels 30 ENCODING_IEEE (initial_state ENCODING_IEEE) [165] 1)
  = map Some [0; 1; 0; 1; 1; 0; 1; 0; 1; 1; 1; 1; 1; 1; 1].
Proof.
  exact (packet_decoding ENCODING_IEEE 30 (initial_state ENCODING_IEEE)
           [165] 1 eq_refl ltac:(vm_compute; discriminate) eq_refl eq_refl
           (or_intror eq_refl) eq_refl eq_refl ltac:(lia)
           ltac:(vm_compute; lia) ltac:(lia)).
Defined.

Lemma read_back enc fuel s transmit_data num_bytes :
  sending_in_progress s = 0 ->
  clk s <> 0 ->
  transmit_buffer_index s = 0 ->
  bit_index s = 6 ->
  prev s = 0 ->
  PA4 s = rest_level enc ->
  length (transmit_buffer s) = 255%nat ->
  1 <= num_bytes <= 254 ->
  length transmit_data = Z.to_nat num_bytes ->
  bit_of (load transmit_data 0) 7 = 0 ->
  16 * (num_bytes + 1) - 2 <= Z.of_nat fuel ->
  decode_levels enc (packet_levels fuel enc s transmit_data num_bytes)
  = map Some (bytes_bits transmit_data)
    ++ map Some (removelast
                   (byte_bits (load (transmit_buffer s)
                                    (Z.to_nat num_bytes)))).
Proof.
  intros Hidle Hc Hi Hb Hp Hpin Hlen Hn Hd Htop Hf.
  rewrite (decoding_from_rest enc fuel s transmit_data num_bytes
             Hidle Hc Hi Hb (or_introl Hp) Hpin Hlen ltac:(lia) Hf).
  rewrite (queued_bytes_after_send s transmit_data num_bytes Hidle
             ltac:(lia) Hlen ltac:(lia)).
  rewrite <- Hd, firstn_all, Hp.
  rewrite (map_ext (fun b => Some (Z.lxor b 0)) Some)
    by (intros b; rewrite Z.lxor_0_r; reflexivity).
  destruct transmit_data as [|a d]; [simpl in Hd; lia|].
  unfold load in Htop. cbn [nth] in Htop.
  set (x := load (transmit_buffer s) (length (a :: d))).
  unfold bytes_bits. rewrite flat_map_app. cbn [flat_map].
  rewrite app_nil_r.
  change (byte_bits a)
    with (bit_of a 7 :: map (bit_of a) [6; 5; 4; 3; 2; 1; 0]).
  rewrite Htop. cbn [app tl].
  rewrite <- map_app. change (Some 0 :: map Some ?l) with (map Some (0 :: l)).
  f_equal.
  rewrite !removelast_app by (unfold byte_bits; discriminate).
  reflexivity.
Qed.

(** X6.  The round trip the code does give, in either convention: a
    payload of 1 to 254 bytes whose first byte has its top bit clear,
    handed over with [prev] at 0 and the line at rest, is read back whole
    and in order, most significant bit first; seven bits of the byte that
    lay behind the payload in the buffer follow it. *)
Theorem payload_read_back enc fuel s transmit_data num_bytes :
  sending_in_progress s = 0 ->
  clk s <> 0 ->
  transmit_buffer_index s = 0 ->
  bit_index s = 6 ->
  prev s = 0 ->
  PA4 s = rest_level enc ->
  length (transmit_buffer s) = 255%nat ->
  1 <= num_bytes <= 254 ->
  length transmit_data = Z.to_nat num_bytes ->
  bit_of (load transmit_data 0) 7 = 0 ->
  16 * (num_bytes + 1) - 2 <= Z.of_nat fuel ->
  decode_levels enc (packet_levels fuel enc s transmit_data num_bytes)
  = map Some (bytes_bits transmit_data)
    ++ map Some (removelast
                   (byte_bits (load (transmit_buffer s)
                                    (Z.to_nat num_bytes)))).
Proof. apply read_back. Qed.

Lemma payload_read_back_witness :
  decode_levels ENCODING_IEEE
    (packet_levels 302 ENCODING_IEEE (first_packet_sent ENCODING_IEEE)
                   transmit_example 18)
  = map Some (bytes_bits transmit_example)
    ++ map Some (removelast (byte_bits 0)).
Proof.
  exact (payload_read_back ENCODING_IEEE 302
           (first_packet_sent ENCODING_IEEE) transmit_example 18
           eq_refl ltac:(vm_compute; discriminate) eq_refl eq_refl eq_refl
           eq_refl eq_refl ltac:(lia) eq_refl eq_refl ltac:(lia)).
Defined.

(** ** The buffer and its accesses *)

(** X7.  Where an accepted call puts the payload: byte [j] of the buffer
    is byte [j] of the payload for [j] below the byte count, the framing
    byte at index 0 included as soon as the count is not 0, and is what it
    was before the call from the byte count on.  The buffer keeps its 255
    bytes, for every count a [uint8_t] holds. *)
Theorem send_copies_payload s transmit_data num_bytes (j : nat) :
  sending_in_progress s = 0 ->
  length (transmit_buffer s) = 255%nat ->
  0 <= num_bytes <= 255 ->
  let s' := snd (send_encoded_data s transmit_data num_bytes) in
  length (transmit_buffer s') = 255%nat
  /\ load (transmit_buffer s') j
     = if (j <? Z.to_nat num_bytes)%nat
       then load transmit_data j
       else load (transmit_buffer s) j.
Proof.
  intros Hidle Hlen Hn s'. subst s'.
  rewrite (send_accepts s transmit_data num_bytes Hidle). cbn [snd]. fields.
  split; [rewrite copy_loop_length; exact Hlen|].
  rewrite copy_loop_load by lia.
  rewrite Nat.add_0_l.
  replace (Nat.leb 0 j) with true by (symmetry; apply Nat.leb_le; lia).
  reflexivity.
Qed.

Lemma send_copies_payload_witness :
  let s' := snd (send_encoded_data (initial_state ENCODING_G_E_THOMAS)
                                   [1; 2; 3] 3) in
  length (transmit_buffer s') = 255%nat
  /\ load (transmit_buffer s') 0 = 1
  /\ load (transmit_buffer s') 3 = 0.
Proof.
  intros s'.
  pose proof (send_copies_payload (initial_state ENCODING_G_E_THOMAS)
                [1; 2; 3] 3 0 eq_refl eq_refl ltac:(lia)) as (H1 & H2).
  pose proof (send_copies_payload (initial_state ENCODING_G_E_THOMAS)
                [1; 2; 3] 3 3 eq_refl eq_refl ltac:(lia)) as (_ & H3).
  split; [exact H1|]. split; [exact H2 | exact H3].
Defined.

Lemma access_invariant_start enc : access_invariant (initial_state enc).
Proof.
  destruct enc; unfold access_invariant; cbn;
    repeat split; try lia; try reflexivity; auto.
Qed.

Ltac close_access :=
  repeat split; try lia; try assumption; auto;
  try (intros; discriminate); try (intros; contradiction).

Lemma access_invariant_tick enc s :
  access_invariant s -> TCB_ENABLE s = true -> access_invariant (ISR enc s).
Proof.
  unfold access_invariant.
  intros (Hlen & Hb & Hl & Hp & Hidx & Hoff) He.
  destruct (Z.eq_dec (clk s) 0) as [Hc | Hc].
  - pose proof (next_bit_of_cases s) as Hnext.
    destruct (last_bit_consumed s) eqn:E.
    + apply last_bit_consumed_spec in E. destruct E as [Hz Hle].
      rewrite (ISR_data_edge_last_bit enc s Hc Hz Hle). fields.
      close_access.
    + apply last_bit_consumed_false in E.
      destruct E as [Hnz | [Hz Hlt]].
      * rewrite (ISR_data_edge_same_byte enc s Hc Hnz). fields.
        rewrite (uint8_small (bit_index s - 1)) by lia.
        close_access.
      * rewrite (ISR_data_edge_next_byte enc s Hc Hz Hlt). fields.
        assert (Hbusy : sending_in_progress s <> 0).
        { intros H0. destruct Hidx as [Hi0 | [Hs _]]; [|contradiction].
          rewrite Hi0, (Hoff H0 He) in Hlt.
          pose proof (uint8_range (0 + 1)). lia. }
        pose proof (uint8_range (transmit_buffer_index s + 1)) as Hu.
        close_access.
  - rewrite (ISR_clock_edge enc s Hc). unfold set_PA4, set_clk. fields.
    close_access.
Qed.

Lemma access_invariant_step enc s s' :
  access_invariant s -> program_step enc s s' -> access_invariant s'.
Proof.
  intros Hinv Hstep.
  destruct Hstep as [s He | s d n Hn | s Hs He].
  - apply access_invariant_tick; assumption.
  - destruct (Z.eq_dec (sending_in_progress s) 0) as [Hi | Hs].
    + rewrite (send_accepts s d n Hi). cbn [snd].
      destruct Hinv as (Hlen & Hb & Hl & Hp & Hidx & Hoff).
      assert (Hi0 : transmit_buffer_index s = 0)
        by (destruct Hidx as [H | [H _]]; [exact H | contradiction]).
      unfold access_invariant. fields.
      pose proof (uint8_range (n + 1)) as Hu.
      rewrite copy_loop_length.
      close_access.
    + rewrite (send_refuses s d n Hs). exact Hinv.
  - destruct Hinv as (Hlen & Hb & Hl & Hp & Hidx & Hoff).
    unfold access_invariant, set_TCB_ENABLE. fields.
    close_access.
Qed.

Lemma program_reachable_invariant enc s :
  program_reachable enc s -> access_invariant s.
Proof.
  induction 1 as [|s s' _ IH Hstep].
  - apply access_invariant_start.
  - apply (access_invariant_step enc s s' IH Hstep).
Qed.

(** X8.  The handler never reads outside the buffer.  In every state the
    program reaches from its start by ticks, calls of [send_encoded_data]
    with any byte count from 0 to 255, and re-enablings of the timer, the
    byte index is below the 255 bytes of the buffer and the bit index is
    between 0 and 7, so that the bit the handler computes is bit
    [bit_index] of byte [transmit_buffer_index]; [prev] is 0 or 1. *)
Theorem handler_reads_inside_buffer enc s :
  program_reachable enc s ->
  (Z.to_nat (transmit_buffer_index s) < length (transmit_buffer s))%nat
  /\ 0 <= transmit_buffer_index s <= 254
  /\ 0 <= bit_index s <= 7
  /\ next_bit_of s
     = bit_of (nth (Z.to_nat (transmit_buffer_index s)) (transmit_buffer s) 0)
              (bit_index s)
  /\ (prev s = 0 \/ prev s = 1).
Proof.
  intros Hr. apply program_reachable_invariant in Hr.
  destruct Hr as (Hlen & Hb & Hl & Hp & Hidx & _).
  assert (Hi : 0 <= transmit_buffer_index s <= 254)
    by (destruct Hidx as [-> | [_ H]]; lia).
  split; [rewrite Hlen; lia|]. split; [exact Hi|]. split; [exact Hb|].
  split; [|exact Hp].
  apply (next_bit_of_is_bit s). lia.
Qed.

Lemma handler_reads_inside_buffer_witness :
  let s := snd (send_encoded_data (initial_state ENCODING_G_E_THOMAS)
                                  (repeat 255 255) 255) in
  (Z.to_nat (transmit_buffer_index (ISR ENCODING_G_E_THOMAS s))
   < length (transmit_buffer (ISR ENCODING_G_E_THOMAS s)))%nat
  /\ 0 <= bit_index (ISR ENCODING_G_E_THOMAS s) <= 7.
Proof.
  intros s.
  assert (Hr : program_reachable ENCODING_G_E_THOMAS
                 (ISR ENCODING_G_E_THOMAS s)).
  { apply (program_next ENCODING_G_E_THOMAS s).
    - apply (program_next ENCODING_G_E_THOMAS
               (initial_state ENCODING_G_E_THOMAS)).
      + apply program_start.
      + apply (program_send ENCODING_G_E_THOMAS _ (repeat 255 255) 255). lia.
    - apply program_tick. reflexivity. }
  pose proof (handler_reads_inside_buffer ENCODING_G_E_THOMAS _ Hr)
    as (H1 & _ & H3 & _).
  split; [exact H1 | exact H3].
Defined.

(** X9.  While a packet is in flight nothing writes the buffer: from a
    state with [sending_in_progress] set, no move of the program, be it a
    tick, a call of [send_encoded_data] with any payload, or the enabling
    of the timer, changes a byte of the buffer or the length. *)
Theorem buffer_frozen_while_busy enc s s' :
  sending_in_progress s <> 0 ->
  program_step enc s s' ->
  transmit_buffer s' = transmit_buffer s
  /\ transmit_buffer_length s' = transmit_buffer_length s.
Proof.
  intros Hs Hstep. destruct Hstep as [s He | s d n Hn | s Hs' He].
  - apply ISR_buffer.
  - rewrite (send_refuses s d n Hs). split; reflexivity.
  - split; reflexivity.
Qed.

Lemma buffer_frozen_while_busy_witness :
  let s := first_packet_queued ENCODING_G_E_THOMAS in
  let s' := snd (send_encoded_data s [9; 9; 9] 3) in
  transmit_buffer s' = transmit_buffer s
  /\ transmit_buffer_length s' = transmit_buffer_length s.
Proof.
  intros s s'.
  apply (buffer_frozen_while_busy ENCODING_G_E_THOMAS s s').
  - vm_compute. discriminate.
  - apply (program_send ENCODING_G_E_THOMAS s [9; 9; 9] 3). lia.
Defined.

(** ** No long runs on the line *)

Lemma no_three_equal_aux (l : list bool) :
  (Forall has_mid_bit_transition (bit_periods l) -> no_three_equal l)
  /\ (forall a, Forall has_mid_bit_transition (bit_periods (a :: l)) ->
                no_three_equal (a :: l)).
Proof.
  induction l as [|b l [IH1 IH2]].
  - split; intros; cbn; auto.
  - split; [apply IH2|].
    intros a H. cbn [bit_periods] in H.
    apply Forall_cons_iff in H. destruct H as [Hab Hrest].
    unfold has_mid_bit_transition in Hab. cbn [fst snd] in Hab.
    cbn [no_three_equal]. split.
    + destruct l; [exact I|]. intros [H1 _]. contradiction.
    + split; [|apply IH1; exact Hrest].
      destruct l as [|c [|d l]]; try exact I.
      cbn [bit_periods] in Hrest.
      apply Forall_cons_iff in Hrest. destruct Hrest as [Hcd _].
      unfold has_mid_bit_transition in Hcd. cbn [fst snd] in Hcd.
      intros [_ H2]. contradiction.
Qed.

(** X10.  The line never keeps a level for three half-bit periods in a
    row during a packet: among the level at hand-over and the levels after
    each tick, no three consecutive ones are equal, whatever the bytes and
    the convention. *)
Theorem no_long_runs enc s fuel transmit_data num_bytes :
  clk s <> 0 ->
  no_three_equal (packet_levels fuel enc s transmit_data num_bytes).
Proof.
  intros Hc. apply no_three_equal_aux.
  unfold packet_levels, line_levels.
  apply mid_bit_transitions_aux.
  unfold send_encoded_data.
  destruct (sending_in_progress s =? 0); exact Hc.
Qed.

Lemma no_long_runs_witness :
  no_three_equal
    (packet_levels 302 ENCODING_G_E_THOMAS
                   (initial_state ENCODING_G_E_THOMAS) transmit_example 18).
Proof.
  apply (no_long_runs ENCODING_G_E_THOMAS
           (initial_state ENCODING_G_E_THOMAS) 302 transmit_example 18).
  vm_compute. discriminate.
Defined.

(** ** The main loop over several packets *)

Lemma set_TCB_ENABLE_same s :
  TCB_ENABLE s = true -> set_TCB_ENABLE true s = s.
Proof. destruct s. cbn. intros ->. reflexivity. Qed.

(** A pass of the main loop made with the flag clear: the packet is
    accepted and the timer ends up enabled, behind the guard delay when it
    was disabled and at once when it was running. *)
Lemma main_pass_accepts baud m transmit_data num_bytes :
  sending_in_progress (mcu m) = 0 ->
  main_pass baud m transmit_data num_bytes
  = Some (mkMain
            (set_TCB_ENABLE true
               (snd (send_encoded_data (mcu m) transmit_data num_bytes)))
            (delay_calls m
             + (if TCB_ENABLE (mcu m) then 0 else guard_count baud))
            (delayed_us m
             + 250 * (if TCB_ENABLE (mcu m) then 0 else guard_count baud))).
Proof.
  intros Hidle. unfold main_pass.
  rewrite (send_accepts (mcu m) transmit_data num_bytes Hidle). cbn [snd].
  f_equal.
  assert (He : TCB_ENABLE (mcu m) = true \/ TCB_ENABLE (mcu m) = false)
    by (destruct (TCB_ENABLE (mcu m)); [left | right]; reflexivity).
  destruct He as [He | He]; rewrite He.
  - rewrite guard_and_enable_skip by (right; reflexivity).
    rewrite set_TCB_ENABLE_same by reflexivity.
    cbn [fst]. f_equal; lia.
  - rewrite guard_and_enable_effect; cbn [fst mcu delay_calls delayed_us];
      fields; [reflexivity | discriminate | reflexivity].
Qed.

Lemma clean_after_transmit enc fuel num_bytes s transmit_data :
  clean enc num_bytes s ->
  1 <= num_bytes <= 254 ->
  16 * (num_bytes + 1) - 2 <= Z.of_nat fuel ->
  let s' := transmit fuel enc s transmit_data num_bytes in
  clean enc num_bytes s'
  /\ TCB_ENABLE s' = false
  /\ load (transmit_buffer s') (Z.to_nat num_bytes)
     = load (transmit_buffer s) (Z.to_nat num_bytes).
Proof.
  intros (Hidle & Hc & Hi & Hb & Hp & Hpin & Hlen & Hstale) Hn Hf s'.
  subst s'.
  rewrite (transmit_final enc s transmit_data num_bytes fuel Hidle
             ltac:(rewrite Hc; discriminate) Hi Hb Hlen ltac:(lia) Hf).
  assert (Hload : load (copy_loop (Z.to_nat num_bytes) 0 transmit_data
                                  (transmit_buffer s))
                       (Z.to_nat num_bytes)
                  = load (transmit_buffer s) (Z.to_nat num_bytes)).
  { rewrite copy_loop_load by lia.
    replace (Nat.leb 0 (Z.to_nat num_bytes)
             && Nat.ltb (Z.to_nat num_bytes) (0 + Z.to_nat num_bytes))%bool
      with false
      by (symmetry; apply andb_false_iff; right; apply Nat.ltb_ge; lia).
    reflexivity. }
  unfold clean. fields. rewrite copy_loop_length, Hload.
  repeat split; try reflexivity; assumption.
Qed.

Lemma main_loop_aux enc baud fuel num_bytes :
  1 <= num_bytes <= 254 ->
  16 * (num_bytes + 1) - 2 <= Z.of_nat fuel ->
  forall packets m,
    clean enc num_bytes (mcu m) ->
    Forall (plain_packet num_bytes) packets ->
    let r := main_loop fuel enc baud m packets in
    map (decode_levels enc) (fst r)
    = map (fun p =>
             map Some (bytes_bits (fst p))
             ++ map Some
                  (removelast
                     (byte_bits (load (transmit_buffer (mcu m))
                                      (Z.to_nat num_bytes)))))
          packets
    /\ clean enc num_bytes (mcu (snd r))
    /\ (TCB_ENABLE (mcu m) = false ->
        delay_calls (snd r)
        = delay_calls m + guard_count baud * Z.of_nat (length packets))
    /\ (TCB_ENABLE (mcu m) = true -> packets <> [] ->
        delay_calls (snd r)
        = delay_calls m
          + guard_count baud * (Z.of_nat (length packets) - 1)).
Proof.
  intros Hn Hf.
  induction packets as [|[d n] rest IH]; intros m Hclean Hall r; subst r.
  - cbn [main_loop fst snd map length].
    split; [reflexivity|]. split; [exact Hclean|].
    split; [intros _; lia | intros _ H; contradiction].
  - apply Forall_cons_iff in Hall. destruct Hall as [Hp Hrest].
    destruct Hp as (Hsize & Hlen & Htop). cbn [fst snd] in Hsize, Hlen, Htop.
    subst n.
    pose proof Hclean as (Hidle & Hc & Hi & Hb & Hprev & Hpin & Hbuf & Hst).
    cbn [main_loop].
    rewrite (main_pass_accepts baud m d num_bytes Hidle).
    cbn [mcu delay_calls delayed_us].
    change (run fuel enc
              (set_TCB_ENABLE true
                 (snd (send_encoded_data (mcu m) d num_bytes))))
      with (transmit fuel enc (mcu m) d num_bytes).
    change (line_levels fuel enc
              (set_TCB_ENABLE true
                 (snd (send_encoded_data (mcu m) d num_bytes))))
      with (packet_levels fuel enc (mcu m) d num_bytes).
    destruct (clean_after_transmit enc fuel num_bytes (mcu m) d Hclean Hn Hf)
      as (Hclean' & Hoff & Hstale).
    match goal with
    | |- context [main_loop fuel enc baud ?m' rest] =>
        specialize (IH m' Hclean' Hrest); cbn [mcu delay_calls] in IH;
        destruct (main_loop fuel enc baud m' rest) as [levels final]
    end.
    cbn [fst snd] in *.
    destruct IH as (Hdec & Hfinal & Hdelay & _).
    cbn [map fst]. rewrite Hdec, Hstale.
    rewrite (read_back enc fuel (mcu m) d num_bytes Hidle
               ltac:(rewrite Hc; discriminate) Hi Hb Hprev Hpin Hbuf Hn
               Hlen Htop Hf).
    split; [reflexivity|]. split; [exact Hfinal|].
    rewrite (Hdelay Hoff). cbn [length]. rewrite Nat2Z.inj_succ.
    split; intros He; rewrite He; [|intros _]; lia.
Qed.

(** X11.  The main loop sending one packet after the other.  Started in a
    state with [prev] clear, the line at rest and an even byte behind the
    place of the payload, as at program start in the default build, and
    fed packets of one size whose first bit is clear, it puts every packet
    on the line so that the receiver reads the payload back whole, each
    time followed by the same seven bits of the byte behind it; the state
    after each packet is again such a state.  Every packet is preceded by
    [guard_count] delay calls, except the first one when the timer is
    already running, as it is at program start. *)
Theorem main_loop_reads_back enc baud fuel num_bytes packets m :
  1 <= num_bytes <= 254 ->
  16 * (num_bytes + 1) - 2 <= Z.of_nat fuel ->
  clean enc num_bytes (mcu m) ->
  Forall (plain_packet num_bytes) packets ->
  let r := main_loop fuel enc baud m packets in
  map (decode_levels enc) (fst r)
  = map (fun p =>
           map Some (bytes_bits (fst p))
           ++ map Some
                (removelast
                   (byte_bits (load (transmit_buffer (mcu m))
                                    (Z.to_nat num_bytes)))))
        packets
  /\ clean enc num_bytes (mcu (snd r))
  /\ (TCB_ENABLE (mcu m) = false ->
      delay_calls (snd r)
      = delay_calls m + guard_count baud * Z.of_nat (length packets))
  /\ (TCB_ENABLE (mcu m) = true -> packets <> [] ->
      delay_calls (snd r)
      = delay_calls m
        + guard_count baud * (Z.of_nat (length packets) - 1)).
Proof.
  intros Hn Hf Hclean Hall.
  apply (main_loop_aux enc baud fuel num_bytes Hn Hf packets m Hclean Hall).
Qed.

Lemma main_loop_reads_back_witness :
  let m := mkMain (initial_state ENCODING_G_E_THOMAS) 0 0 in
  let other := [77; 105; 99; 114; 111; 99; 104; 105; 112; 32; 65; 84; 116;
                105; 110; 121; 56; 49] in
  let packets := [(transmit_example, 18); (other, 18);
                  (transmit_example, 18)] in
  let r := main_loop 302 ENCODING_G_E_THOMAS BAUD_RATE m packets in
  map (decode_levels ENCODING_G_E_THOMAS) (fst r)
  = [map Some (bytes_bits transmit_example ++ [0; 0; 0; 0; 0; 0; 0]);
     map Some (bytes_bits other ++ [0; 0; 0; 0; 0; 0; 0]);
     map Some (bytes_bits transmit_example ++ [0; 0; 0; 0; 0; 0; 0])]
  /\ delay_calls (snd r) = 80.
Proof.
  intros m other packets r.
  assert (Hclean : clean ENCODING_G_E_THOMAS 18 (mcu m))
    by (repeat split; reflexivity).
  assert (Hall : Forall (plain_packet 18) packets)
    by (repeat constructor).
  pose proof (main_loop_reads_back ENCODING_G_E_THOMAS BAUD_RATE 302 18
                packets m ltac:(lia) ltac:(lia) Hclean Hall)
    as (H1 & _ & _ & H4).
  split.
  - exact H1.
  - exact (H4 eq_refl ltac:(discriminate)).
Defined.

(** X12.  Two packets in a row.  The second packet is read with every bit
    after the first exclusive-or'ed with bit 0 of the byte that lay behind
    the payload of the first packet: [prev] is left at that bit by the
    first transmission and nothing resets it.  So a packet that follows
    one with an odd byte behind it is read complemented, in either
    convention. *)
Theorem second_packet_decoding enc fuel1 fuel2 s data1 bytes1 data2 bytes2 :
  sending_in_progress s = 0 ->
  clk s <> 0 ->
  transmit_buffer_index s = 0 ->
  bit_index s = 6 ->
  length (transmit_buffer s) = 255%nat ->
  0 <= bytes1 <= 254 ->
  16 * (bytes1 + 1) - 2 <= Z.of_nat fuel1 ->
  0 <= bytes2 <= 254 ->
  (Z.to_nat bytes2 <= length data2)%nat ->
  16 * (bytes2 + 1) - 2 <= Z.of_nat fuel2 ->
  let s1 := transmit fuel1 enc s data1 bytes1 in
  decode_levels enc (packet_levels fuel2 enc s1 data2 bytes2)
  = Some 0
    :: map (fun b =>
              Some (Z.lxor b (bit_of (load (transmit_buffer s)
                                           (Z.to_nat bytes1)) 0)))
         (removelast
            (tl (bytes_bits
                   (firstn (Z.to_nat bytes2) data2
                    ++ [load (transmit_buffer s1) (Z.to_nat bytes2)])))).
Proof.
  intros Hidle Hc Hi Hb Hlen Hn1 Hf1 Hn2 Hd2 Hf2 s1.
  assert (H1 : s1 = mkState (copy_loop (Z.to_nat bytes1) 0 data1
                                       (transmit_buffer s))
                            (bytes1 + 1) 0
                            (bit_of (load (transmit_buffer s)
                                          (Z.to_nat bytes1)) 0)
                            1 0 6 (rest_level enc) false)
    by (apply transmit_final; assumption).
  assert (Hlen1 : length (transmit_buffer s1) = 255%nat)
    by (rewrite H1; fields; rewrite copy_loop_length; exact Hlen).
  assert (Hp1 : prev s1 = bit_of (load (transmit_buffer s)
                                       (Z.to_nat bytes1)) 0)
    by (rewrite H1; reflexivity).
  rewrite (decoding_from_rest enc fuel2 s1 data2 bytes2).
  - rewrite Hp1.
    rewrite (queued_bytes_after_send s1 data2 bytes2); try assumption.
    + reflexivity.
    + rewrite H1. reflexivity.
  - rewrite H1. reflexivity.
  - rewrite H1. discriminate.
  - rewrite H1. reflexivity.
  - rewrite H1. reflexivity.
  - rewrite Hp1. apply or_comm, or_comm, bit_of_cases.
  - rewrite H1. reflexivity.
  - exact Hlen1.
  - exact Hn2.
  - exact Hf2.
Qed.

Lemma second_packet_decoding_witness :
  let s := initial_state ENCODING_G_E_THOMAS in
  let s1 := transmit 14 ENCODING_G_E_THOMAS s [] 0 in
  prev s1 = 1
  /\ decode_levels ENCODING_G_E_THOMAS
       (packet_levels 30 ENCODING_G_E_THOMAS s1 [72] 1)
     = map Some [0; 0; 1; 1; 0; 1; 1; 1; 1; 1; 1; 1; 1; 1; 1].
Proof.
  intros s s1. split; [reflexivity|].
  pose proof (second_packet_decoding ENCODING_G_E_THOMAS 14 30 s [] 0 [72] 1
                eq_refl ltac:(vm_compute; discriminate) eq_refl eq_refl
                eq_refl ltac:(lia) ltac:(lia) ltac:(lia)
                ltac:(vm_compute; lia) ltac:(lia)) as H.
  cbv zeta in H. fold s1 in H.
  exact (eq_trans H eq_refl).
Defined.
